(** * Scan conversion of the real-time inference client

    A shallow embedding of [scripts/realtime_inference.py]: the geometry
    mapper [scan_conversion_inverse], the weight builder
    [scan_interpolation_weights], the forward converter [scan_convert], the
    mask generator [curvilinear_mask], the preprocessing step
    [preprocess_input] and the configuration-loading prefix of [run_client]
    with the image branch of its message loop; and of
    [scripts/generate_data_json.py], the script that writes the index of
    image and label files.

    Conventions of the embedding.
    - Python exceptions are the constructors of [exn]; a function that can
      raise returns a [result].
    - A 2-D numpy array is the list of its rows; [flatten] is row-major.
    - binary64 values are read as the real numbers ([R]) they denote.  The
      arithmetic of the weight builder and of the forward converter (the
      difference, the two einsum products and the row sum of lines 99-102
      and 120) rounds every result to the nearest binary64 value
      ([round64]); the sample grid and the division by 255 of the
      preprocessing are read without rounding, and nothing stated about
      them depends on it.  The one float that is truncated to an integer,
      [int(0.1 * image_size)], is read over the rationals and also computed
      bit for bit in binary64 with [SpecFloat], and the two readings are
      shown to agree on image sizes up to 4095.
    - The values of a configuration have the types of the script's sample
      configuration: numbers for the angles, integers for the radii, the
      counts and the image size, a pair of integers for the centre.
    - The third-party routines whose result the script only consumes
      ([scipy.spatial.Delaunay], the rasterisers [cv2.ellipse] and
      [cv2.circle]) are variables of a section; [cv2.erode],
      [scipy.ndimage.map_coordinates] and [F.interpolate] are written out
      from their documented behaviour. *)

From Stdlib Require Import Reals Lra Lia ZArith Ascii String Bool List.
From Stdlib Require Import QArith Qround.
From Stdlib Require Import Floats.SpecFloat.
Import ListNotations.

Set Implicit Arguments.

(** ** Exceptions and the result monad *)

Inductive exn : Type :=
| KeyError (key : string)
| ValueError
| IndexError
| RuntimeError
| OverflowError
| QhullError
| Cv2Error.

Inductive result (A : Type) : Type :=
| Ok (a : A)
| Raise (e : exn).

Arguments Ok {A} a.
Arguments Raise {A} e.

Definition bind {A B : Type} (m : result A) (k : A -> result B) : result B :=
  match m with
  | Ok a => k a
  | Raise e => Raise e
  end.

Declare Scope result_scope.
Delimit Scope result_scope with result.
Notation "x <- m ;; k" := (bind m (fun x => k))
  (at level 61, m at next level, right associativity) : result_scope.
Notation "' p <- m ;; k" := (bind m (fun x => match x with p => k end))
  (at level 61, p pattern, m at next level, right associativity) : result_scope.
Local Open Scope result_scope.

Definition succeeds {A : Type} (m : result A) : Prop :=
  exists a, m = Ok a.

Fixpoint mapM {A B : Type} (f : A -> result B) (l : list A) : result (list B) :=
  match l with
  | [] => Ok []
  | a :: l' => b <- f a ;; bs <- mapM f l' ;; Ok (b :: bs)
  end.

(** ** The configuration dictionary

    [yaml.safe_load] returns a dict.  Its values have the kinds the script
    uses them at (angles are numbers, counts and pixel quantities are
    integers, the centre is a pair); any key may be absent, and
    [cfg["k"]] on an absent key raises [KeyError]. *)

Record Config : Type := {
  angle_min_degrees : option R;
  angle_max_degrees : option R;
  radius_start_pixels : option Z;
  radius_end_pixels : option Z;
  num_lines : option Z;
  num_samples_along_lines : option Z;
  center_coordinate_pixel : option (Z * Z);
  curvilinear_image_size : option Z
}.

Definition getitem {A : Type} (key : string) (field : option A) : result A :=
  match field with
  | Some v => Ok v
  | None => Raise (KeyError key)
  end.

(** ** Arrays *)

Definition array2 (A : Type) : Type := list (list A).

Definition flatten {A : Type} (a : array2 A) : list A := concat a.

(** The shape of a 2-D array holds when it has [rows] rows of [cols]
    entries each. *)
Definition has_shape {A : Type} (a : array2 A) (rows cols : nat) : Prop :=
  length a = rows /\ Forall (fun row => length row = cols) a.

Definition map2d {A B : Type} (f : A -> B) (a : array2 A) : array2 B :=
  map (map f) a.

Fixpoint zip_with {A B C : Type} (f : A -> B -> C) (l : list A) (m : list B)
  : list C :=
  match l, m with
  | a :: l', b :: m' => f a b :: zip_with f l' m'
  | _, _ => []
  end.

Definition zip_with2d {A B C : Type} (f : A -> B -> C)
  (a : array2 A) (b : array2 B) : array2 C :=
  zip_with (zip_with f) a b.

(** numpy indexing [a[i]] of a sequence by a Python integer: negative
    indices count from the end, anything outside [-n, n) raises. *)
Definition np_index {A : Type} (a : list A) (i : Z) : result A :=
  let n := Z.of_nat (length a) in
  let j := if (i <? 0)%Z then (i + n)%Z else i in
  if ((0 <=? j)%Z && (j <? n)%Z)%bool
  then match nth_error a (Z.to_nat j) with
       | Some v => Ok v
       | None => Raise IndexError
       end
  else Raise IndexError.

(** ** Geometry mapper *)

Definition deg2rad (x : R) : R := (x * (PI / 180))%R.

(** [y[-1] = stop] *)
Fixpoint set_last (l : list R) (v : R) : list R :=
  match l with
  | [] => []
  | [_] => [v]
  | a :: l' => a :: set_last l' v
  end.

(** [np.linspace(start, stop, num)] with the default [endpoint=True]:
    [arange(num) * step + start] with [step = (stop - start) / (num - 1)],
    the last entry overwritten by [stop] when [num > 1]; a negative [num]
    is rejected. *)
Definition linspace (start stop : R) (num : Z) : result (list R) :=
  if (num <? 0)%Z then Raise ValueError
  else
    let n := Z.to_nat num in
    let div := (n - 1)%nat in
    let step := ((stop - start) / INR div)%R in
    let y := map (fun i => (INR i * step + start)%R) (seq 0 n) in
    Ok (if (1 <? n)%nat then set_last y stop else y).

(** [np.meshgrid(xv, yv)] with the default ['xy'] indexing: both outputs
    have [len(yv)] rows and [len(xv)] columns. *)
Definition meshgrid (xv yv : list R) : array2 R * array2 R :=
  (map (fun _ => xv) yv, map (fun y => map (fun _ => y) xv) yv).

Definition scan_conversion_inverse (cfg : Config)
  : result (array2 R * array2 R) :=
  amin <- getitem "angle_min_degrees" (angle_min_degrees cfg) ;;
  let initial_radius := deg2rad amin in
  amax <- getitem "angle_max_degrees" (angle_max_degrees cfg) ;;
  let final_radius := deg2rad amax in
  radius_start_px <- getitem "radius_start_pixels" (radius_start_pixels cfg) ;;
  radius_end_px <- getitem "radius_end_pixels" (radius_end_pixels cfg) ;;
  ns <- getitem "num_samples_along_lines" (num_samples_along_lines cfg) ;;
  thetas <- linspace initial_radius final_radius ns ;;
  nl <- getitem "num_lines" (num_lines cfg) ;;
  radii <- linspace (IZR radius_start_px) (IZR radius_end_px) nl ;;
  let '(theta, r) := meshgrid thetas radii in
  c <- getitem "center_coordinate_pixel" (center_coordinate_pixel cfg) ;;
  let x_cart :=
    zip_with2d (fun ri ti => (ri * cos ti + IZR (fst c))%R) r theta in
  let y_cart :=
    zip_with2d (fun ri ti => (ri * sin ti + IZR (snd c))%R) r theta in
  Ok (x_cart, y_cart).

(** ** binary64 arithmetic

    The numbers the weight builder and the forward converter compute with
    are binary64 values, read as the real numbers they denote.  An
    arithmetic operation returns the exact result rounded to the nearest
    binary64 value, ties to even: 53 significant bits, and a smallest
    quantum of [2^-1074] (gradual underflow).  The exponent is not bounded
    above: where binary64 overflows to an infinity this reading continues
    with a finite number, so the statements that depend on rounding carry
    a bound that keeps every intermediate value in range. *)

Definition bpow (e : Z) : R := powerRZ 2 e.

(** The binade of [x]: [2^(mag x - 1) <= |x| < 2^(mag x)]. *)
Definition mag (x : R) : Z := up (ln (Rabs x) / ln 2).

(** The exponent of the quantum of the binary64 values around [x]. *)
Definition quantum (x : R) : Z := Z.max (mag x - 53) (-1074).

(** The nearest integer, ties to even. *)
Definition rint (r : R) : Z :=
  let n := (up r - 1)%Z in
  if Rlt_dec (r - IZR n) (1 / 2) then n
  else if Rlt_dec (1 / 2) (r - IZR n) then (n + 1)%Z
  else if Z.even n then n else (n + 1)%Z.

Definition round64 (x : R) : R :=
  (IZR (rint (x / bpow (quantum x))) * bpow (quantum x))%R.

Definition fadd (x y : R) : R := round64 (x + y).
Definition fsub (x y : R) : R := round64 (x - y).
Definition fmul (x y : R) : R := round64 (x * y).


(** ** Interpolation weight builder *)

Definition vec2 : Type := (R * R)%type.
Definition mat22 : Type := (vec2 * vec2)%type.
Definition row3 (A : Type) : Type := (A * A * A)%type.

(** What the script reads of a [scipy.spatial.Delaunay] object:
    [simplices] (one row of three point indices per triangle), [transform]
    (per triangle, the 2x2 matrix [transform[s, :2]] and the offset
    [transform[s, 2]]) and the point-location method [find_simplex], which
    answers -1 outside the convex hull. *)
Record Triangulation : Type := {
  simplices : list (row3 Z);
  transform : list (mat22 * vec2);
  find_simplex : vec2 -> Z
}.

(** [np.mgrid[0:n, 0:n]], both grids flattened and stacked as points:
    entry [i * n + j] is [(i, j)]. *)
Definition mgrid_points (image_size : Z) : list vec2 :=
  let n := Z.to_nat image_size in
  flat_map (fun i => map (fun j => (INR i, INR j)) (seq 0 n)) (seq 0 n).

(** One row of the array difference [p - q]. *)
Definition vsub (p q : vec2) : vec2 :=
  (fsub (fst p) (fst q), fsub (snd p) (snd q)).

(** One row of [np.einsum('ijk,ik->ij', X, Y)]: two products and their
    sum, each rounded. *)
Definition matvec (X : mat22) (Y : vec2) : vec2 :=
  let '((x00, x01), (x10, x11)) := X in
  (fadd (fmul x00 (fst Y)) (fmul x01 (snd Y)),
   fadd (fmul x10 (fst Y)) (fmul x11 (snd Y))).

(** One row of [np.c_[b, 1 - b.sum(axis=1)]]. *)
Definition weight_row (b : vec2) : row3 R :=
  (fst b, snd b, fsub 1 (fadd (fst b) (snd b))).


Section WeightBuilder.

Variable Delaunay : list vec2 -> result Triangulation.

Definition scan_interpolation_weights (cfg : Config)
  : result (list (row3 Z) * list (row3 R)) :=
  image_size <- getitem "curvilinear_image_size" (curvilinear_image_size cfg) ;;
  '(x_cart, y_cart) <- scan_conversion_inverse cfg ;;
  triangulation <- Delaunay (combine (flatten x_cart) (flatten y_cart)) ;;
  let grid := mgrid_points image_size in
  let found := map (find_simplex triangulation) grid in
  vertices <- mapM (np_index (simplices triangulation)) found ;;
  X <- mapM (np_index (map fst (transform triangulation))) found ;;
  offsets <- mapM (np_index (map snd (transform triangulation))) found ;;
  let Y := zip_with vsub grid offsets in
  let b := zip_with matvec X Y in
  let weights := map weight_row b in
  Ok (vertices, weights).

End WeightBuilder.

(** ** Forward scan converter *)

(** [np.take(z, v)] on one row of indices (default [mode='raise']). *)
Definition take_row (z : list R) (v : row3 Z) : result (row3 R) :=
  let '(v0, v1, v2) := v in
  a0 <- np_index z v0 ;;
  a1 <- np_index z v1 ;;
  a2 <- np_index z v2 ;;
  Ok (a0, a1, a2).

(** One entry of [np.einsum('ij,ij->i', a, w)]: three rounded products,
    added from the left with a rounding after each addition. *)
Definition dot3 (a w : row3 R) : R :=
  let '(a0, a1, a2) := a in
  let '(w0, w1, w2) := w in
  fadd (fadd (fmul a0 w0) (fmul a1 w1)) (fmul a2 w2).

(** [np.einsum('ij,ij->i', a, w)]: the two operands broadcast along [i]
    when one of them has a single row; other length mismatches raise. *)
Definition einsum_rows (a w : list (row3 R)) : result (list R) :=
  if (length a =? length w)%nat then Ok (zip_with dot3 a w)
  else match a, w with
       | [a0], _ => Ok (map (dot3 a0) w)
       | _, [w0] => Ok (map (fun ai => dot3 ai w0) a)
       | _, _ => Raise ValueError
       end.

Fixpoint chunks {A : Type} (rows cols : nat) (l : list A) : array2 A :=
  match rows with
  | O => []
  | S rows' => firstn cols l :: chunks rows' cols (skipn cols l)
  end.

(** [a.reshape(rows, cols)] of a 1-D array, with both extents given. *)
Definition reshape {A : Type} (l : list A) (rows cols : Z)
  : result (array2 A) :=
  if ((rows <? 0)%Z || (cols <? 0)%Z)%bool then Raise ValueError
  else if (rows * cols =? Z.of_nat (length l))%Z
       then Ok (chunks (Z.to_nat rows) (Z.to_nat cols) l)
       else Raise ValueError.

Definition scan_convert (linear_data : array2 R) (cfg : Config)
  (vertices : list (row3 Z)) (weights : list (row3 R))
  : result (array2 R) :=
  let z := flatten linear_data in
  taken <- mapM (take_row z) vertices ;;
  zi <- einsum_rows taken weights ;;
  image_size <- getitem "curvilinear_image_size" (curvilinear_image_size cfg) ;;
  reshape zi image_size image_size.

(** ** Validity mask generator *)

(** *** [int(0.1 * image_size)]

    Read over the rationals, as the other float computations are read over
    the reals; [erosion_size_binary64] below is the same expression in
    binary64, bit for bit. *)

(** [int(q)]: truncation toward zero. *)
Definition int_of_Q (q : Q) : Z :=
  if Qlt_le_dec q 0 then Qceiling q else Qfloor q.

Definition erosion_size_of (image_size : Z) : Z :=
  int_of_Q ((1 # 10) * inject_Z image_size)%Q.

Definition prec : Z := 53.
Definition emax : Z := 1024.

(** The literal [0.1]: 0x1999999999999A * 2^-56. *)
Definition float_tenth : spec_float :=
  S754_finite false 7205759403792794 (-56).

(** Conversion of a Python [int] operand of a float multiplication. *)
Definition float_of_int (n : Z) : result spec_float :=
  match binary_normalize prec emax n 0 false with
  | S754_infinity _ => Raise OverflowError
  | f => Ok f
  end.

(** [int(f)] of a binary64 value. *)
Definition int_of_float (f : spec_float) : result Z :=
  match f with
  | S754_zero _ => Ok 0%Z
  | S754_finite s m e =>
      let magnitude :=
        if (0 <=? e)%Z then (Z.pos m * 2 ^ e)%Z
        else (Z.pos m / 2 ^ (- e))%Z in
      Ok (if s then (- magnitude)%Z else magnitude)
  | S754_infinity _ => Raise OverflowError
  | S754_nan => Raise ValueError
  end.

Definition erosion_size_binary64 (image_size : Z) : result Z :=
  f <- float_of_int image_size ;;
  int_of_float (SFmul prec emax float_tenth f).

(** Python's [round] of a rational: to the nearest integer, ties to the
    even one.  Used to state the side length the specification names,
    [round(0.1 * curvilinear_image_size)]. *)
Definition round_half_even (q : Q) : Z :=
  let f := Qfloor q in
  let twice_frac := ((q - inject_Z f) * 2)%Q in
  if Qlt_le_dec twice_frac 1 then f
  else if Qlt_le_dec 1 twice_frac then (f + 1)%Z
  else if Z.even f then f else (f + 1)%Z.

Definition spec_erosion_side (image_size : Z) : Z :=
  round_half_even ((1 # 10) * inject_Z image_size)%Q.

(** *** Images of small integers *)

Fixpoint imap_from {A B : Type} (i : nat) (f : nat -> A -> B) (l : list A)
  : list B :=
  match l with
  | [] => []
  | a :: l' => f i a :: imap_from (S i) f l'
  end.

Definition imap {A B : Type} (f : nat -> A -> B) (l : list A) : list B :=
  imap_from 0 f l.

(** [np.zeros((n, n))] and [np.ones((n, n))]. *)
Definition np_full {A : Type} (v : A) (rows cols : Z) : result (array2 A) :=
  if ((rows <? 0)%Z || (cols <? 0)%Z)%bool then Raise ValueError
  else Ok (repeat (repeat v (Z.to_nat cols)) (Z.to_nat rows)).

(** A filled drawing primitive writes [color] on the pixels of its region
    and leaves the others. *)
Definition paint (region : nat -> nat -> bool) (color : Z) (img : array2 Z)
  : array2 Z :=
  imap (fun r row => imap (fun c v => if region r c then color else v) row)
       img.

(** [a.astype(np.uint8)] *)
Definition astype_uint8 (img : array2 Z) : array2 Z :=
  map2d (fun v => (v mod 256)%Z) img.

(** Resolution of a Python index against an axis of extent [n]. *)
Definition axis_index (n : nat) (i : Z) : result nat :=
  let j := if (i <? 0)%Z then (i + Z.of_nat n)%Z else i in
  if ((0 <=? j)%Z && (j <? Z.of_nat n)%Z)%bool then Ok (Z.to_nat j)
  else Raise IndexError.

(** [a[i, :] = v] *)
Definition assign_row (img : array2 Z) (i : Z) (v : Z) : result (array2 Z) :=
  k <- axis_index (length img) i ;;
  Ok (imap (fun r row => if (r =? k)%nat then map (fun _ => v) row else row)
           img).

(** [a[:, j] = v] *)
Definition assign_col (img : array2 Z) (j : Z) (v : Z) : result (array2 Z) :=
  mapM (fun row =>
          k <- axis_index (length row) j ;;
          Ok (imap (fun c x => if (c =? k)%nat then v else x) row))
       img.

(** *** [cv2.erode] on an 8-bit image

    Default anchor (the kernel centre, integer division), default border
    (constant, of the largest value, so that pixels outside the image never
    lower a minimum).  An empty kernel stands for the 3x3 rectangle. *)

Definition pixel_or (default : Z) (img : array2 Z) (y x : Z) : Z :=
  if ((y <? 0)%Z || (x <? 0)%Z)%bool then default
  else nth (Z.to_nat x) (nth (Z.to_nat y) img []) default.

Definition kernel_offsets (kernel : array2 Z) : list (Z * Z) :=
  let ay := Z.of_nat (length kernel / 2) in
  let ax := Z.of_nat (length (hd [] kernel) / 2) in
  concat
    (imap (fun i krow =>
             concat
               (imap (fun j k =>
                        if (k =? 0)%Z then []
                        else [((Z.of_nat i - ay)%Z, (Z.of_nat j - ax)%Z)])
                     krow))
          kernel).

Definition erode_pixel (offsets : list (Z * Z)) (src : array2 Z) (r c : nat)
  : Z :=
  fold_right Z.min 255%Z
    (map (fun d => pixel_or 255%Z src (Z.of_nat r + fst d) (Z.of_nat c + snd d))
         offsets).

Definition erode_once (kernel : array2 Z) (src : array2 Z) : array2 Z :=
  let offsets := kernel_offsets kernel in
  imap (fun r row => imap (fun c _ => erode_pixel offsets src r c) row) src.

Definition is_empty_kernel (kernel : array2 Z) : bool :=
  match kernel with
  | [] => true
  | [] :: _ => true
  | _ => false
  end.

Definition cv2_erode (src : array2 Z) (kernel : array2 Z) (iterations : nat)
  : array2 Z :=
  let kernel' :=
    if is_empty_kernel kernel then repeat (repeat 1%Z 3) 3 else kernel in
  Nat.iter iterations (erode_once kernel') src.

Section MaskGenerator.

(** The pixels [cv2.ellipse] fills for a centre, axes, rotation, start and
    end angle, and those [cv2.circle] fills for a centre and a radius;
    a pixel is given as row, then column. *)
Variable ellipse_region :
  Z * Z -> Z * Z -> R -> R -> R -> nat -> nat -> bool.
Variable circle_region : Z * Z -> Z -> nat -> nat -> bool.

Definition cv2_ellipse (img : array2 Z) (center axes : Z * Z)
  (angle startAngle endAngle : R) (color : Z) : result (array2 Z) :=
  if ((fst axes <? 0)%Z || (snd axes <? 0)%Z)%bool then Raise Cv2Error
  else Ok (paint (ellipse_region center axes angle startAngle endAngle)
                 color img).

Definition cv2_circle (img : array2 Z) (center : Z * Z) (radius : Z)
  (color : Z) : result (array2 Z) :=
  if (radius <? 0)%Z then Raise Cv2Error
  else Ok (paint (circle_region center radius) color img).

(** The mask before erosion: lines 136-154 of the script. *)
Definition sector_mask (cfg : Config) : result (array2 Z) :=
  amin <- getitem "angle_min_degrees" (angle_min_degrees cfg) ;;
  let angle1 := (90 + amin)%R in
  amax <- getitem "angle_max_degrees" (angle_max_degrees cfg) ;;
  let angle2 := (90 + amax)%R in
  c <- getitem "center_coordinate_pixel" (center_coordinate_pixel cfg) ;;
  let center_rows_px := fst c in
  let center_cols_px := snd c in
  radius1 <- getitem "radius_start_pixels" (radius_start_pixels cfg) ;;
  radius2 <- getitem "radius_end_pixels" (radius_end_pixels cfg) ;;
  image_size <- getitem "curvilinear_image_size" (curvilinear_image_size cfg) ;;
  mask_array <- np_full 0%Z image_size image_size ;;
  mask_array <- cv2_ellipse mask_array (center_cols_px, center_rows_px)
                  (radius2, radius2) 0 angle1 angle2 1 ;;
  mask_array <- cv2_circle mask_array (center_cols_px, center_rows_px)
                  radius1 0 ;;
  let mask_array := astype_uint8 mask_array in
  mask_array <- assign_row mask_array 0 0 ;;
  mask_array <- assign_col mask_array 0 0 ;;
  mask_array <- assign_row mask_array (-1) 0 ;;
  assign_col mask_array (-1) 0.

(** The whole generator; [image_size] is the local the script read before
    it allocated the mask. *)
Definition curvilinear_mask (cfg : Config) : result (array2 Z) :=
  mask_array <- sector_mask cfg ;;
  image_size <- getitem "curvilinear_image_size" (curvilinear_image_size cfg) ;;
  let erosion_size := erosion_size_of image_size in
  kernel <- np_full 1%Z erosion_size erosion_size ;;
  Ok (cv2_erode mask_array kernel 1).

End MaskGenerator.

(** ** Inverse resampling and preprocessing *)

Definition shape_of {A : Type} (a : array2 A) : list nat := map (@length A) a.

Definition pixel_at (input : array2 R) (i j : Z) : R :=
  if ((i <? 0)%Z || (j <? 0)%Z)%bool then 0%R
  else nth (Z.to_nat j) (nth (Z.to_nat i) input []) 0%R.

(** One output value of [map_coordinates(input, [x, y], order=1,
    mode='constant', cval=cval)]: [cval] when the point is off the input's
    extent, else the bilinear blend of the four surrounding pixels. *)
Definition sample_linear (input : array2 R) (cval x y : R) : R :=
  let h := INR (length input) in
  let w := INR (length (hd [] input)) in
  if Rle_dec 0 x then
    if Rle_dec x (h - 1) then
      if Rle_dec 0 y then
        if Rle_dec y (w - 1) then
          let i := Int_part x in
          let j := Int_part y in
          let fx := (x - IZR i)%R in
          let fy := (y - IZR j)%R in
          ((1 - fx) * (1 - fy) * pixel_at input i j
           + (1 - fx) * fy * pixel_at input i (j + 1)
           + fx * (1 - fy) * pixel_at input (i + 1) j
           + fx * fy * pixel_at input (i + 1) (j + 1))%R
        else cval
      else cval
    else cval
  else cval.

Definition shape_eqb (s t : list nat) : bool :=
  if list_eq_dec Nat.eq_dec s t then true else false.

(** The coordinate arrays are stacked first, which needs equal shapes. *)
Definition map_coordinates (input : array2 R) (x_cart y_cart : array2 R)
  (cval : R) : result (array2 R) :=
  if shape_eqb (shape_of x_cart) (shape_of y_cart)
  then Ok (zip_with2d (sample_linear input cval) x_cart y_cart)
  else Raise ValueError.

(** Broadcasting of a list to an axis of extent [n]. *)
Definition broadcast_axis {A : Type} (n : nat) (l : list A)
  : result (list A) :=
  if (length l =? n)%nat then Ok l
  else match l with
       | [a] => Ok (repeat a n)
       | _ => Raise ValueError
       end.

(** [dst[0, :, :] = src] for a [dst] of [rows] by [cols]. *)
Definition assign_plane {A : Type} (rows cols : nat) (src : array2 A)
  : result (array2 A) :=
  src' <- mapM (broadcast_axis cols) src ;;
  broadcast_axis rows src'.

(** [F.interpolate(t, size=s, mode="nearest")] on one channel. *)
Definition nearest_index (in_size out_size i : nat) : nat :=
  Nat.min (i * in_size / out_size) (in_size - 1).

Definition interpolate_nearest (plane : array2 R) (size : Z)
  : result (array2 R) :=
  let h := length plane in
  let w := length (hd [] plane) in
  if ((size <=? 0)%Z || (h =? 0)%nat || (w =? 0)%nat)%bool
  then Raise RuntimeError
  else
    let s := Z.to_nat size in
    Ok (map (fun i =>
               map (fun j =>
                      nth (nearest_index w s j)
                          (nth (nearest_index h s i) plane []) 0%R)
                   (seq 0 s))
            (seq 0 s)).

(** A frame arrives as an array of shape (1, H, W); the model input is
    given by its three channels. *)
Definition preprocess_input (image : list (array2 R)) (image_size : Z)
  (scanconversion_config : option Config)
  (x_cart y_cart : option (array2 R)) : result (list (array2 R)) :=
  image <-
    match scanconversion_config with
    | Some cfg =>
        num_samples <- getitem "num_samples_along_lines"
                         (num_samples_along_lines cfg) ;;
        num_lines <- getitem "num_lines" (num_lines cfg) ;;
        plane <- np_full 0%R num_lines num_samples ;;
        let image := [plane] in
        resampled <-
          match x_cart, y_cart with
          | Some x, Some y =>
              src <- np_index image 0 ;;
              map_coordinates src x y 0
          | None, None => Raise RuntimeError
          | _, _ => Raise ValueError
          end ;;
        plane' <- assign_plane (Z.to_nat num_lines) (Z.to_nat num_samples)
                    resampled ;;
        Ok [plane']
    | None => Ok image
    end ;;
  plane <- np_index image 0 ;;
  let channel := map2d (fun v => (v / 255)%R) plane in
  mapM (fun ch => interpolate_nearest ch image_size)
       [channel; channel; channel].

(** ** The client: loading, then the frame loop *)

Record Args : Type := {
  args_image_size : Z;
  args_input_device_name : string;
  (** the YAML document named by [--scanconversion-config], if any *)
  args_scanconversion_config : option Config
}.

Record Message : Type := {
  device_name : string;
  message_image : list (array2 R)
}.

Record Loaded : Type := {
  loaded_config : option Config;
  loaded_x_cart : option (array2 R);
  loaded_y_cart : option (array2 R);
  loaded_vertices : option (list (row3 Z));
  loaded_weights : option (list (row3 R));
  loaded_mask_array : option (array2 Z)
}.

(** What a run of the client did: the model inputs it produced, in order,
    and the exception that ended it, if one did. *)
Record Run : Type := {
  model_inputs : list (list (array2 R));
  raised : option exn
}.

Section Client.

Variable Delaunay : list vec2 -> result Triangulation.
Variable ellipse_region :
  Z * Z -> Z * Z -> R -> R -> R -> nat -> nat -> bool.
Variable circle_region : Z * Z -> Z -> nat -> nat -> bool.
(** Inference, postprocessing and sending of one frame; may raise. *)
Variable infer_and_send : Loaded -> list (array2 R) -> result unit.

(** Lines 274-292 of the script. *)
Definition load_scan_conversion (args : Args) : result Loaded :=
  '(config, x_cart, y_cart) <-
    match args_scanconversion_config args with
    | Some cfg =>
        '(x, y) <- scan_conversion_inverse cfg ;;
        Ok (Some cfg, Some x, Some y)
    | None => Ok (None, None, None)
    end ;;
  match config, x_cart, y_cart with
  | Some cfg, Some _, Some _ =>
      '(vertices, weights) <- scan_interpolation_weights Delaunay cfg ;;
      mask_array <- curvilinear_mask ellipse_region circle_region cfg ;;
      Ok {| loaded_config := config;
            loaded_x_cart := x_cart; loaded_y_cart := y_cart;
            loaded_vertices := Some vertices;
            loaded_weights := Some weights;
            loaded_mask_array := Some mask_array |}
  | _, _, _ =>
      Ok {| loaded_config := config;
            loaded_x_cart := x_cart; loaded_y_cart := y_cart;
            loaded_vertices := None; loaded_weights := None;
            loaded_mask_array := None |}
  end.

Fixpoint frame_loop (args : Args) (st : Loaded) (messages : list Message)
  (done : list (list (array2 R))) : Run :=
  match messages with
  | [] => {| model_inputs := rev done; raised := None |}
  | message :: rest =>
      if String.eqb (device_name message) (args_input_device_name args)
      then
        match preprocess_input (message_image message)
                (args_image_size args) (loaded_config st)
                (loaded_x_cart st) (loaded_y_cart st) with
        | Raise e => {| model_inputs := rev done; raised := Some e |}
        | Ok image =>
            match infer_and_send st image with
            | Raise e =>
                {| model_inputs := rev (image :: done); raised := Some e |}
            | Ok _ => frame_loop args st rest (image :: done)
            end
        end
      else frame_loop args st rest done
  end.

(** The client on the messages it polls until it is stopped. *)
Definition run_client (args : Args) (messages : list Message) : Run :=
  match load_scan_conversion args with
  | Raise e => {| model_inputs := []; raised := Some e |}
  | Ok st => frame_loop args st messages []
  end.

End Client.

(** ** Configurations with every key present *)

Record Geometry : Type := {
  g_angle_min : R;
  g_angle_max : R;
  g_radius_start : Z;
  g_radius_end : Z;
  g_num_lines : Z;
  g_num_samples : Z;
  g_center : Z * Z;
  g_image_size : Z
}.

Definition config_of (g : Geometry) : Config := {|
  angle_min_degrees := Some (g_angle_min g);
  angle_max_degrees := Some (g_angle_max g);
  radius_start_pixels := Some (g_radius_start g);
  radius_end_pixels := Some (g_radius_end g);
  num_lines := Some (g_num_lines g);
  num_samples_along_lines := Some (g_num_samples g);
  center_coordinate_pixel := Some (g_center g);
  curvilinear_image_size := Some (g_image_size g)
|}.

(** The invariant of the data model: the radii and the angles are ordered,
    the image has a positive side, the two counts are counts. *)
Definition valid (g : Geometry) : Prop :=
  (g_angle_min g < g_angle_max g)%R /\
  (0 <= g_radius_start g < g_radius_end g)%Z /\
  (0 <= g_num_lines g)%Z /\
  (0 <= g_num_samples g)%Z /\
  (0 < g_image_size g)%Z.

(** The sample grid in closed form. *)
Definition polar_grid (f : R -> R -> R) (radii thetas : list R) : array2 R :=
  map (fun ri => map (fun ti => f ri ti) thetas) radii.

(** The contract of [scipy.spatial.Delaunay] on [npoints] input points, as
    far as the script relies on it: there is a triangle, every triangle has
    its transform and names three of the input points, and point location
    answers a triangle or -1. *)
Definition in_range (n : nat) (i : Z) : Prop := (0 <= i < Z.of_nat n)%Z.

Record well_formed (npoints : nat) (t : Triangulation) : Prop := {
  wf_nonempty : simplices t <> [];
  wf_transform : length (transform t) = length (simplices t);
  wf_find : forall p,
    (-1 <= find_simplex t p < Z.of_nat (length (simplices t)))%Z;
  wf_vertices :
    Forall (fun s : row3 Z =>
              in_range npoints (fst (fst s)) /\
              in_range npoints (snd (fst s)) /\
              in_range npoints (snd s))
           (simplices t)
}.

(** Entry [(r, c)] of a 2-D array, when there is one. *)
Definition lookup {A : Type} (a : array2 A) (r c : nat) : option A :=
  match nth_error a r with
  | Some row => nth_error row c
  | None => None
  end.

(** An array rebuilt entry by entry from its indices and old values. *)
Definition imap2 {A B : Type} (f : nat -> nat -> A -> B) (a : array2 A)
  : array2 B :=
  imap (fun r row => imap (fun c v => f r c v) row) a.

(** The kernel the script builds, after [cv2.erode] has replaced an empty
    one: a square of ones of side at least 1. *)
Definition ones (k : nat) : array2 Z := repeat (repeat 1%Z k) k.

(** The binary64 product agrees with the rational one on the [count] side
    lengths from [first] on. *)
Fixpoint binary64_agrees (first : Z) (count : nat) : bool :=
  match count with
  | O => true
  | S count' =>
      match erosion_size_binary64 first with
      | Ok k => (k =? erosion_size_of first)%Z
      | Raise _ => false
      end && binary64_agrees (first + 1) count'
  end.

(** Arrays that are zero throughout. *)
Definition all_zero (a : array2 R) : Prop :=
  Forall (Forall (fun v => v = 0%R)) a.

(** A required key is absent. *)
Definition missing_key (cfg : Config) : Prop :=
  angle_min_degrees cfg = None \/ angle_max_degrees cfg = None \/
  radius_start_pixels cfg = None \/ radius_end_pixels cfg = None \/
  num_lines cfg = None \/ num_samples_along_lines cfg = None \/
  center_coordinate_pixel cfg = None \/ curvilinear_image_size cfg = None.

Definition nonpositive_size (cfg : Config) : Prop :=
  exists size, curvilinear_image_size cfg = Some size /\ (size <= 0)%Z.

(** The key is one the script reads, and the configuration lacks it. *)
Definition absent (key : string) (cfg : Config) : Prop :=
  (key = "angle_min_degrees"%string /\ angle_min_degrees cfg = None) \/
  (key = "angle_max_degrees"%string /\ angle_max_degrees cfg = None) \/
  (key = "radius_start_pixels"%string /\ radius_start_pixels cfg = None) \/
  (key = "radius_end_pixels"%string /\ radius_end_pixels cfg = None) \/
  (key = "num_samples_along_lines"%string
   /\ num_samples_along_lines cfg = None) \/
  (key = "num_lines"%string /\ num_lines cfg = None) \/
  (key = "center_coordinate_pixel"%string
   /\ center_coordinate_pixel cfg = None) \/
  (key = "curvilinear_image_size"%string
   /\ curvilinear_image_size cfg = None).

(** A count or the image size is negative; a radius is negative. *)
Definition negative_count (cfg : Config) : Prop :=
  exists n,
    (num_samples_along_lines cfg = Some n \/ num_lines cfg = Some n \/
     curvilinear_image_size cfg = Some n) /\ (n < 0)%Z.

Definition negative_radius (cfg : Config) : Prop :=
  exists r,
    (radius_start_pixels cfg = Some r \/ radius_end_pixels cfg = Some r)
    /\ (r < 0)%Z.

(** The exceptions loading a configuration can end with: a KeyError for an
    absent key, a ValueError of [np.linspace] or [np.zeros] for a negative
    count or size, an error of OpenCV for a negative radius, an IndexError
    (of the border assignment on an empty mask, or of the lookup of a
    triangle), or what the triangulation routine raises. *)
Definition load_error (Delaunay : list vec2 -> result Triangulation)
  (cfg : Config) (e : exn) : Prop :=
  (exists key, e = KeyError key /\ absent key cfg) \/
  (e = ValueError /\ negative_count cfg) \/
  (e = Cv2Error /\ negative_radius cfg) \/
  e = IndexError \/
  (exists points, Delaunay points = Raise e).

Definition on_border (size r c : nat) : Prop :=
  r = 0%nat \/ r = (size - 1)%nat \/ c = 0%nat \/ c = (size - 1)%nat.

(** An index [np.take] and numpy indexing accept on an axis of extent [n]. *)
Definition index_ok (n : nat) (i : Z) : Prop :=
  (- Z.of_nat n <= i < Z.of_nat n)%Z.

Definition row_ok (n : nat) (s : row3 Z) : Prop :=
  index_ok n (fst (fst s)) /\ index_ok n (snd (fst s)) /\ index_ok n (snd s).

(** ** Sample inputs *)

(** Scenario A of the specification. *)
Definition scenario_a : Geometry := {|
  g_angle_min := -30; g_angle_max := 30;
  g_radius_start := 50; g_radius_end := 200;
  g_num_lines := 128; g_num_samples := 256;
  g_center := (256, 256)%Z; g_image_size := 512
|}.

(** A fan of one line of three samples in a 4x4 image. *)
Definition small_fan : Geometry := {|
  g_angle_min := -30; g_angle_max := 30;
  g_radius_start := 1; g_radius_end := 3;
  g_num_lines := 1; g_num_samples := 3;
  g_center := (2, 2)%Z; g_image_size := 4
|}.

(** The same fan with the two radii exchanged. *)
Definition reversed_radii : Geometry := {|
  g_angle_min := -30; g_angle_max := 30;
  g_radius_start := 3; g_radius_end := 1;
  g_num_lines := 1; g_num_samples := 3;
  g_center := (2, 2)%Z; g_image_size := 4
|}.

(** Scenario A on a 256-pixel image. *)
Definition scenario_256 : Geometry := {|
  g_angle_min := -30; g_angle_max := 30;
  g_radius_start := 25; g_radius_end := 100;
  g_num_lines := 128; g_num_samples := 256;
  g_center := (128, 128)%Z; g_image_size := 256
|}.

(** The small fan's configuration without its outer radius. *)
Definition no_radius_end : Config := {|
  angle_min_degrees := Some (-30)%R;
  angle_max_degrees := Some 30%R;
  radius_start_pixels := Some 1%Z;
  radius_end_pixels := None;
  num_lines := Some 1%Z;
  num_samples_along_lines := Some 3%Z;
  center_coordinate_pixel := Some (2, 2)%Z;
  curvilinear_image_size := Some 4%Z
|}.

(** Constant data in the fan's own shape (1, 3) and in the shape (3, 1). *)
Definition sevens_1x3 : array2 R := [[7; 7; 7]]%R.
Definition sevens_3x1 : array2 R := [[7]; [7]; [7]]%R.

(** The small fan converted into a single pixel. *)
Definition one_pixel : Geometry := {|
  g_angle_min := -30; g_angle_max := 30;
  g_radius_start := 1; g_radius_end := 3;
  g_num_lines := 1; g_num_samples := 3;
  g_center := (2, 2)%Z; g_image_size := 1
|}.

(** A triangulation object over three points: their one triangle, with a
    point location that finds every query outside it. *)
Definition one_triangle : Triangulation := {|
  simplices := [(0, 1, 2)%Z];
  transform := [(((1, 0), (0, 1)), (0, 0))%R];
  find_simplex := fun _ => (-1)%Z
|}.

Definition fixed_Delaunay (t : Triangulation) (points : list vec2)
  : result Triangulation := Ok t.







(** Rasterisers that fill the whole disc of the given radius. *)
Definition in_disc (center : Z * Z) (radius : Z) (r c : nat) : bool :=
  ((Z.of_nat c - fst center) ^ 2 + (Z.of_nat r - snd center) ^ 2
   <=? radius ^ 2)%Z.

Definition disc_ellipse (center axes : Z * Z) (angle a1 a2 : R) (r c : nat)
  : bool := in_disc center (fst axes) r c.

Definition always_sends (st : Loaded) (image : list (array2 R))
  : result unit := Ok tt.

Definition bright_frame : Message := {|
  device_name := "Image_Image";
  message_image := [[[255%R]]]
|}.

Definition args_with (cfg : Config) : Args := {|
  args_image_size := 2;
  args_input_device_name := "Image_Image";
  args_scanconversion_config := Some cfg
|}.

Definition client_args (g : Geometry) : Args := args_with (config_of g).

(** The side of the structuring element [cv2.erode] works with for an image
    of side [image_size] (3 when the script's kernel is empty), and the
    margin that element clears on each side of the image. *)
Definition kernel_side (image_size : Z) : nat :=
  let k := Z.to_nat (erosion_size_of image_size) in
  if (k =? 0)%nat then 3%nat else k.

Definition margin (image_size : Z) : nat :=
  (kernel_side image_size - kernel_side image_size / 2)%nat.

Definition in_margin (image_size : Z) (r c : nat) : Prop :=
  let n := Z.to_nat image_size in
  let m := margin image_size in
  (r < m \/ n - m <= r \/ c < m \/ n - m <= c)%nat.

(** Arrays whose entries all lie between [lo] and [hi]. *)
Definition all_between (lo hi : R) (a : array2 R) : Prop :=
  Forall (Forall (fun v => (lo <= v <= hi)%R)) a.

(** * The dataset index script

    [scripts/generate_data_json.py].  The directory tree enters through
    [os.walk], a variable: the triples (root, dirs, files) it yields for a
    folder, in its order; writing the file is the result [Written] of the
    path and the object handed to [json.dump]. *)

(** [s.split("/")] *)
Fixpoint split (sep : Ascii.ascii) (s : string) : list string :=
  match s with
  | EmptyString => [EmptyString]
  | String c s' =>
      if Ascii.eqb c sep then EmptyString :: split sep s'
      else match split sep s' with
           | [] => [String c EmptyString]
           | w :: ws => String c w :: ws
           end
  end.

Definition starts_with_sep (s : string) : bool :=
  match s with
  | String c _ => Ascii.eqb c "/"%char
  | EmptyString => false
  end.

Fixpoint ends_with_sep (s : string) : bool :=
  match s with
  | EmptyString => false
  | String c EmptyString => Ascii.eqb c "/"%char
  | String _ s' => ends_with_sep s'
  end.

(** [os.path.join(a, b)] on a POSIX system. *)
Definition path_join (a b : string) : string :=
  if starts_with_sep b then b
  else if (String.eqb a EmptyString || ends_with_sep a)%bool
       then String.append a b
       else String.append a (String "/"%char b).

(** The values [json.dump] receives. *)
Inductive json : Type :=
| JString (s : string)
| JArray (items : list string).

(** A Python dict, in insertion order. *)
Definition dict : Type := list (string * json).

(** [d[k] = v] *)
Fixpoint dict_set (k : string) (v : json) (d : dict) : dict :=
  match d with
  | [] => [(k, v)]
  | (k', v') :: d' =>
      if String.eqb k' k then (k, v) :: d' else (k', v') :: dict_set k v d'
  end.

(** [d.get(k)] *)
Fixpoint dict_get (k : string) (d : dict) : option json :=
  match d with
  | [] => None
  | (k', v) :: d' => if String.eqb k' k then Some v else dict_get k d'
  end.

(** A dict filled from key-value pairs, in their order. *)
Definition dict_of (pairs : list (string * json)) : dict :=
  fold_left (fun d kv => dict_set (fst kv) (snd kv) d) pairs [].

Record IndexArgs : Type := {
  input : option string;
  output : option string;
  type : string;
  img_dir_name : string;
  gt_dir_name : string
}.

Definition walk_entry : Type := (string * list string * list string)%type.

(** [name in root.split(os.sep) and not dirs] *)
Definition selects (name : string) (entry : walk_entry) : bool :=
  let '(root, dirs, files) := entry in
  (existsb (String.eqb name) (split "/"%char root)
   && match dirs with [] => true | _ => false end)%bool.

(** [[os.path.join(root, fn) for fn in files]] *)
Definition paths_of (entry : walk_entry) : list string :=
  let '(root, dirs, files) := entry in map (path_join root) files.

(** The loop over [os.walk]: the image paths and the label paths. *)
Definition gather (args : IndexArgs) (walked : list walk_entry)
  : list string * list string :=
  fold_left
    (fun (acc : list string * list string) entry =>
       let '(imgs, gts) := acc in
       let imgs := if selects (img_dir_name args) entry
                   then imgs ++ paths_of entry else imgs in
       let gts := if selects (gt_dir_name args) entry
                  then gts ++ paths_of entry else gts in
       (imgs, gts))
    walked ([], []).

Inductive outcome : Type :=
| Written (path : string) (data : dict)
| WalkTypeError.

Section IndexScript.

(** [os.walk(folder)] *)
Variable walk : string -> list walk_entry.

Definition main (args : IndexArgs) : outcome :=
  match input args with
  | None => WalkTypeError
  | Some folder =>
      let '(imgs, gts) := gather args (walk folder) in
      let '(data_dict, output_fn) :=
        if String.eqb (type args) "train"
        then (dict_of (map (fun kv => (fst kv, JArray [snd kv]))
                           (combine imgs gts)),
              "image2label_train.json"%string)
        else (dict_of (map (fun kv => (fst kv, JString (snd kv)))
                           (combine gts imgs)),
              "label2image_test.json"%string) in
      let output_dir :=
        match output args with
        | Some dir => if String.eqb dir EmptyString then folder else dir
        | None => folder
        end in
      Written (path_join output_dir output_fn) data_dict
  end.

End IndexScript.

(** A tree with two leaf folders of two files each. *)
Definition two_folders (folder : string) : list walk_entry :=
  [("data"%string, ["imgs"; "gts"]%string, []);
   ("data/imgs"%string, [], ["a.png"; "b.png"]%string);
   ("data/gts"%string, [], ["a.png"; "b.png"]%string)].

(** A tree with two images and one label. *)
Definition unpaired_folders (folder : string) : list walk_entry :=
  [("data/imgs"%string, [], ["a.png"; "b.png"]%string);
   ("data/gts"%string, [], ["a.png"]%string)].

Definition train_args : IndexArgs := {|
  input := Some "data"%string;
  output := None;
  type := "train"%string;
  img_dir_name := "imgs"%string;
  gt_dir_name := "gts"%string
|}.

Definition test_args : IndexArgs := {|
  input := Some "data"%string;
  output := None;
  type := "test"%string;
  img_dir_name := "imgs"%string;
  gt_dir_name := "gts"%string
|}.

(** * Properties *)

(** ** Lists, shapes and the result monad *)

Lemma bind_ok {A B : Type} (m : result A) (k : A -> result B) (b : B) :
  bind m k = Ok b -> exists a, m = Ok a /\ k a = Ok b.
Proof.
  destruct m as [a | e]; simpl; intros H.
  - exists a. split; [reflexivity | exact H].
  - discriminate H.
Qed.

Lemma mapM_length {A B : Type} (f : A -> result B) (l : list A) (bs : list B) :
  mapM f l = Ok bs -> length bs = length l.
Proof.
  revert bs. induction l as [| a l IH]; simpl; intros bs H.
  - injection H as <-. reflexivity.
  - apply bind_ok in H. destruct H as [b [_ H]].
    apply bind_ok in H. destruct H as [bs' [Hbs H]].
    injection H as <-. simpl. f_equal. apply IH. exact Hbs.
Qed.

Lemma mapM_total {A B : Type} (f : A -> result B) (l : list A) :
  Forall (fun a => succeeds (f a)) l -> succeeds (mapM f l).
Proof.
  induction 1 as [| a l [b Hb] _ [bs Hbs]]; simpl.
  - exists []. reflexivity.
  - exists (b :: bs). rewrite Hb. simpl. rewrite Hbs. reflexivity.
Qed.

Lemma mapM_Forall2 {A B : Type} (f : A -> result B) (l : list A) (bs : list B) :
  mapM f l = Ok bs -> Forall2 (fun a b => f a = Ok b) l bs.
Proof.
  revert bs. induction l as [| a l IH]; simpl; intros bs H.
  - injection H as <-. constructor.
  - apply bind_ok in H. destruct H as [b [Hb H]].
    apply bind_ok in H. destruct H as [bs' [Hbs H]].
    injection H as <-. constructor; [exact Hb | apply IH; exact Hbs].
Qed.

Lemma zip_with_const_l {A B C : Type} (f : A -> B -> C) (a : A) (m : list B) :
  zip_with f (map (fun _ => a) m) m = map (f a) m.
Proof.
  induction m as [| b m IH]; simpl; [reflexivity | now rewrite IH].
Qed.

Lemma zip_with_length {A B C : Type} (f : A -> B -> C) (l : list A)
  (m : list B) :
  length l = length m -> length (zip_with f l m) = length l.
Proof.
  revert m. induction l as [| a l IH]; intros [| b m]; simpl; intros H;
    try reflexivity; try discriminate.
  f_equal. apply IH. now injection H.
Qed.

Lemma meshgrid_zip (f : R -> R -> R) (thetas radii : list R) :
  zip_with2d f (snd (meshgrid thetas radii)) (fst (meshgrid thetas radii))
  = polar_grid f radii thetas.
Proof.
  unfold zip_with2d, polar_grid, meshgrid. simpl.
  induction radii as [| r radii IH]; simpl; [reflexivity |].
  rewrite zip_with_const_l. now rewrite IH.
Qed.

Lemma polar_grid_shape (f : R -> R -> R) (radii thetas : list R) :
  has_shape (polar_grid f radii thetas) (length radii) (length thetas).
Proof.
  unfold has_shape, polar_grid. split.
  - apply length_map.
  - apply Forall_map. apply Forall_forall. intros r _. apply length_map.
Qed.


(** ** [np.linspace] *)

Lemma set_last_length (l : list R) (v : R) :
  length (set_last l v) = length l.
Proof.
  induction l as [| a [| b l] IH]; simpl in *; try reflexivity.
  now rewrite IH.
Qed.


Lemma linspace_length (start stop : R) (num : Z) (l : list R) :
  linspace start stop num = Ok l -> length l = Z.to_nat num.
Proof.
  unfold linspace. destruct (num <? 0)%Z; [discriminate |].
  intros H. injection H as <-.
  destruct (1 <? Z.to_nat num)%nat;
    [rewrite set_last_length |]; now rewrite length_map, length_seq.
Qed.

Lemma linspace_total (start stop : R) (num : Z) :
  (0 <= num)%Z -> succeeds (linspace start stop num).
Proof.
  intros H. unfold linspace.
  destruct (Z.ltb_spec num 0); [lia |]. eexists. reflexivity.
Qed.


(** ** Geometry mapper *)

Lemma scan_conversion_inverse_closed_form (g : Geometry)
  (thetas radii : list R) :
  linspace (deg2rad (g_angle_min g)) (deg2rad (g_angle_max g))
           (g_num_samples g) = Ok thetas ->
  linspace (IZR (g_radius_start g)) (IZR (g_radius_end g))
           (g_num_lines g) = Ok radii ->
  scan_conversion_inverse (config_of g)
  = Ok (polar_grid (fun r t => (r * cos t + IZR (fst (g_center g)))%R)
                   radii thetas,
        polar_grid (fun r t => (r * sin t + IZR (snd (g_center g)))%R)
                   radii thetas).
Proof.
  intros Ht Hr. unfold scan_conversion_inverse. simpl.
  rewrite Ht. simpl. rewrite Hr. simpl.
  pose proof (meshgrid_zip
                (fun r t => (r * cos t + IZR (fst (g_center g)))%R)
                thetas radii) as Hx.
  pose proof (meshgrid_zip
                (fun r t => (r * sin t + IZR (snd (g_center g)))%R)
                thetas radii) as Hy.
  simpl in Hx, Hy. rewrite Hx, Hy. reflexivity.
Qed.

Lemma scan_conversion_inverse_total (g : Geometry) :
  (0 <= g_num_lines g)%Z -> (0 <= g_num_samples g)%Z ->
  succeeds (scan_conversion_inverse (config_of g)).
Proof.
  intros Hl Hs.
  destruct (linspace_total (deg2rad (g_angle_min g))
              (deg2rad (g_angle_max g)) Hs) as [thetas Ht].
  destruct (linspace_total (IZR (g_radius_start g))
              (IZR (g_radius_end g)) Hl) as [radii Hr].
  eexists. apply scan_conversion_inverse_closed_form; eassumption.
Qed.

Lemma scan_conversion_inverse_shape (g : Geometry) (x_cart y_cart : array2 R) :
  scan_conversion_inverse (config_of g) = Ok (x_cart, y_cart) ->
  has_shape x_cart (Z.to_nat (g_num_lines g)) (Z.to_nat (g_num_samples g)) /\
  has_shape y_cart (Z.to_nat (g_num_lines g)) (Z.to_nat (g_num_samples g)).
Proof.
  intros H.
  assert (Hs : (0 <= g_num_samples g)%Z).
  { unfold scan_conversion_inverse, linspace in H. simpl in H.
    destruct (Z.ltb_spec (g_num_samples g) 0); [discriminate H | lia]. }
  destruct (linspace_total (deg2rad (g_angle_min g))
              (deg2rad (g_angle_max g)) Hs) as [thetas Ht].
  assert (Hl : (0 <= g_num_lines g)%Z).
  { unfold scan_conversion_inverse in H. simpl in H. rewrite Ht in H.
    simpl in H. unfold linspace in H.
    destruct (Z.ltb_spec (g_num_lines g) 0); [discriminate H | lia]. }
  destruct (linspace_total (IZR (g_radius_start g))
              (IZR (g_radius_end g)) Hl) as [radii Hr].
  rewrite (scan_conversion_inverse_closed_form g Ht Hr) in H.
  injection H as <- <-.
  rewrite <- (linspace_length _ _ _ Ht), <- (linspace_length _ _ _ Hr).
  split; apply polar_grid_shape.
Qed.


(** ** Rounding to binary64 *)

Unset Implicit Arguments.
Local Open Scope R_scope.

















(** *** Evaluation of roundings at literals *)







(** ** Rounding errors of a weight row and of a converted constant *)







Local Close Scope R_scope.
Set Implicit Arguments.

(** ** Interpolation weights *)

Lemma np_index_total {A : Type} (a : list A) (i : Z) :
  (- Z.of_nat (length a) <= i < Z.of_nat (length a))%Z ->
  exists v, np_index a i = Ok v /\ In v a.
Proof.
  intros Hi. unfold np_index.
  set (j := if (i <? 0)%Z then (i + Z.of_nat (length a))%Z else i).
  assert (Hj : (0 <= j < Z.of_nat (length a))%Z).
  { unfold j. destruct (Z.ltb_spec i 0); lia. }
  destruct (Z.leb_spec 0 j); [| lia].
  destruct (Z.ltb_spec j (Z.of_nat (length a))); [| lia]. simpl.
  destruct (nth_error a (Z.to_nat j)) as [v |] eqn:E.
  - exists v. split; [reflexivity |]. eapply nth_error_In. exact E.
  - apply nth_error_None in E. lia.
Qed.

Lemma np_index_In {A : Type} (a : list A) (i : Z) (v : A) :
  np_index a i = Ok v -> In v a.
Proof.
  unfold np_index.
  destruct ((0 <=? _)%Z && _)%bool; [| discriminate].
  destruct (nth_error a _) as [w |] eqn:E; [| discriminate].
  intros H. injection H as <-. eapply nth_error_In. exact E.
Qed.

Lemma mgrid_points_length (image_size : Z) :
  length (mgrid_points image_size)
  = (Z.to_nat image_size * Z.to_nat image_size)%nat.
Proof.
  unfold mgrid_points. set (n := Z.to_nat image_size).
  assert (H : forall l : list nat,
             length (flat_map
                       (fun i => map (fun j => (INR i, INR j)) (seq 0 n)) l)
             = (length l * n)%nat).
  { induction l as [| i l IH]; simpl; [reflexivity |].
    rewrite length_app, length_map, length_seq, IH. reflexivity. }
  rewrite H, length_seq. reflexivity.
Qed.

Section WeightProperties.

Variable Delaunay : list vec2 -> result Triangulation.


(** With a well-formed triangulation of the sample grid the builder
    returns, one row per output pixel, the vertices of a triangle. *)
Lemma scan_interpolation_weights_total (g : Geometry) (tri : Triangulation)
  (npoints : nat) :
  (0 <= g_num_lines g)%Z -> (0 <= g_num_samples g)%Z ->
  (forall x_cart y_cart,
      scan_conversion_inverse (config_of g) = Ok (x_cart, y_cart) ->
      Delaunay (combine (flatten x_cart) (flatten y_cart)) = Ok tri) ->
  well_formed npoints tri ->
  exists vertices weights,
    scan_interpolation_weights Delaunay (config_of g)
    = Ok (vertices, weights) /\
    length vertices
    = (Z.to_nat (g_image_size g) * Z.to_nat (g_image_size g))%nat /\
    length weights
    = (Z.to_nat (g_image_size g) * Z.to_nat (g_image_size g))%nat /\
    Forall (fun v => In v (simplices tri)) vertices.
Proof.
  intros Hl Hs HD Hwf.
  destruct (scan_conversion_inverse_total g Hl Hs) as [[x y] Hgrid].
  unfold scan_interpolation_weights. simpl getitem. simpl bind at 1.
  rewrite Hgrid. simpl bind at 1. rewrite (HD _ _ Hgrid). simpl bind at 1.
  set (found := map (find_simplex tri) (mgrid_points (g_image_size g))).
  assert (Hfound : forall (A : Type) (a : list A),
             length a = length (simplices tri) ->
             Forall (fun i => succeeds (np_index a i)) found).
  { intros A a Ha. apply Forall_map. apply Forall_forall. intros p _.
    pose proof (wf_find Hwf p) as Hp.
    assert (Hne : (0 < length (simplices tri))%nat).
    { pose proof (wf_nonempty Hwf) as Hnil.
      destruct (simplices tri); [congruence | simpl; lia]. }
    destruct (@np_index_total A a (find_simplex tri p)) as [v [Hv _]];
      [lia | now exists v]. }
  assert (Hlen : length found
                 = (Z.to_nat (g_image_size g) * Z.to_nat (g_image_size g))%nat).
  { unfold found. now rewrite length_map, mgrid_points_length. }
  destruct (mapM_total _ (Hfound _ (simplices tri) eq_refl)) as [vs Hvs].
  destruct (mapM_total _ (Hfound _ (map fst (transform tri))
              (eq_trans (length_map _ _) (wf_transform Hwf)))) as [X HX].
  destruct (mapM_total _ (Hfound _ (map snd (transform tri))
              (eq_trans (length_map _ _) (wf_transform Hwf)))) as [off Hoff].
  rewrite Hvs. simpl bind at 1. rewrite HX. simpl bind at 1.
  rewrite Hoff. simpl bind at 1.
  do 2 eexists. split; [reflexivity |].
  pose proof (mapM_length _ _ Hvs) as Lvs.
  pose proof (mapM_length _ _ HX) as LX.
  pose proof (mapM_length _ _ Hoff) as Loff.
  split; [congruence |]. split.
  - rewrite length_map, zip_with_length.
    + congruence.
    + rewrite zip_with_length; [| rewrite mgrid_points_length]; try congruence.
      rewrite mgrid_points_length. congruence.
  - apply mapM_Forall2 in Hvs. clear - Hvs.
    induction Hvs as [| i v ? ? Hv _ IH]; constructor; [| exact IH].
    eapply np_index_In. exact Hv.
Qed.


End WeightProperties.

(** ** Forward scan conversion of constant data *)


Lemma flatten_Forall {A : Type} (P : A -> Prop) (a : array2 A) :
  Forall (Forall P) a -> Forall P (flatten a).
Proof.
  unfold flatten. induction 1 as [| row a Hrow _ IH]; simpl.
  - constructor.
  - apply Forall_app. split; assumption.
Qed.

Lemma chunks_shape {A : Type} (rows cols : nat) (l : list A) :
  length l = (rows * cols)%nat -> has_shape (chunks rows cols l) rows cols.
Proof.
  revert l. induction rows as [| rows IH]; intros l Hl; simpl.
  - split; [reflexivity | constructor].
  - destruct (IH (skipn cols l)) as [Hlen Hrows].
    { rewrite length_skipn. simpl in Hl. lia. }
    split; [simpl; now rewrite Hlen |].
    constructor; [| exact Hrows].
    rewrite length_firstn. simpl in Hl. lia.
Qed.

Lemma chunks_lookup {A : Type} (rows cols : nat) (l : list A) (i j : nat) :
  (i < rows)%nat -> (j < cols)%nat ->
  lookup (chunks rows cols l) i j = nth_error l (i * cols + j).
Proof.
  revert l i. induction rows as [| rows IH]; intros l [| i] Hi Hj;
    try lia; unfold lookup; simpl.
  - rewrite nth_error_firstn.
    destruct (Nat.ltb_spec j cols); [reflexivity | lia].
  - change (lookup (chunks rows cols (skipn cols l)) i j
            = nth_error l (cols + i * cols + j)).
    rewrite IH by lia. rewrite nth_error_skipn. f_equal. lia.
Qed.

Lemma take_row_constant (z : list R) (V : R) (v : row3 Z) :
  Forall (fun x => x = V) z ->
  in_range (length z) (fst (fst v)) ->
  in_range (length z) (snd (fst v)) ->
  in_range (length z) (snd v) ->
  take_row z v = Ok (V, V, V).
Proof.
  intros Hz H0 H1 H2. destruct v as [[v0 v1] v2]. simpl in *.
  unfold in_range in *. unfold take_row.
  destruct (@np_index_total _ z v0) as [a0 [E0 I0]]; [lia |].
  destruct (@np_index_total _ z v1) as [a1 [E1 I1]]; [lia |].
  destruct (@np_index_total _ z v2) as [a2 [E2 I2]]; [lia |].
  rewrite E0, E1, E2. simpl.
  rewrite Forall_forall in Hz.
  now rewrite (Hz _ I0), (Hz _ I1), (Hz _ I2).
Qed.

Lemma zip_dot3_constant {A : Type} (V : R) (vertices : list A)
  (weights : list (row3 R)) :
  length vertices = length weights ->
  zip_with dot3 (map (fun _ => (V, V, V)) vertices) weights
  = map (dot3 (V, V, V)) weights.
Proof.
  revert weights. induction vertices as [| v vs IH]; intros [| w ws] Hlen;
    try discriminate; simpl; [reflexivity |].
  f_equal. apply IH. now injection Hlen.
Qed.

(** Constant data through any weights: the conversion succeeds, and pixel
    (r, c) is the rounded dot product of (V, V, V) with weight row
    [r * size + c]. *)
Lemma scan_convert_constant (linear_data : array2 R) (V : R) (cfg : Config)
  (size : Z) (vertices : list (row3 Z)) (weights : list (row3 R)) :
  curvilinear_image_size cfg = Some size ->
  (0 <= size)%Z ->
  Forall (Forall (fun x => x = V)) linear_data ->
  Forall (fun s : row3 Z =>
            in_range (length (flatten linear_data)) (fst (fst s)) /\
            in_range (length (flatten linear_data)) (snd (fst s)) /\
            in_range (length (flatten linear_data)) (snd s)) vertices ->
  length vertices = length weights ->
  Z.of_nat (length weights) = (size * size)%Z ->
  exists image,
    scan_convert linear_data cfg vertices weights = Ok image /\
    has_shape image (Z.to_nat size) (Z.to_nat size) /\
    forall r c,
      (r < Z.to_nat size)%nat -> (c < Z.to_nat size)%nat ->
      lookup image r c
      = option_map (dot3 (V, V, V))
                   (nth_error weights (r * Z.to_nat size + c)).
Proof.
  intros Hsize Hpos Hdata Hvs Hlen Hsq.
  pose proof (flatten_Forall Hdata) as Hz.
  set (z := flatten linear_data) in *.
  assert (Htake : mapM (take_row z) vertices
                  = Ok (map (fun _ => (V, V, V)) vertices)).
  { clear Hlen. induction Hvs as [| v vs (H0 & H1 & H2) _ IH]; simpl.
    - reflexivity.
    - rewrite (@take_row_constant z V v Hz H0 H1 H2). simpl. now rewrite IH. }
  unfold scan_convert. fold z. rewrite Htake. simpl bind at 1.
  unfold einsum_rows. rewrite length_map, Hlen, Nat.eqb_refl.
  simpl bind at 1. rewrite Hsize. simpl.
  rewrite (@zip_dot3_constant _ V vertices weights Hlen).
  unfold reshape.
  destruct (Z.ltb_spec size 0); [lia |]. simpl.
  rewrite length_map, Hsq, Z.eqb_refl.
  eexists. split; [reflexivity |]. split.
  - apply chunks_shape. rewrite length_map. lia.
  - intros r c Hr Hc. rewrite chunks_lookup by assumption.
    apply nth_error_map.
Qed.

(** ** Indexed maps and entries *)

Lemma imap_from_length {A B : Type} (f : nat -> A -> B) (l : list A) (i : nat) :
  length (imap_from i f l) = length l.
Proof.
  revert i. induction l as [| a l IH]; intros i; simpl;
    [reflexivity | now rewrite IH].
Qed.

Lemma imap_from_nth_error {A B : Type} (f : nat -> A -> B) (l : list A)
  (i k : nat) :
  nth_error (imap_from i f l) k = option_map (f (i + k)%nat) (nth_error l k).
Proof.
  revert i k. induction l as [| a l IH]; intros i [| k]; simpl;
    try reflexivity.
  - now rewrite Nat.add_0_r.
  - rewrite IH. now rewrite Nat.add_succ_r.
Qed.

Lemma imap_nth_error {A B : Type} (f : nat -> A -> B) (l : list A) (k : nat) :
  nth_error (imap f l) k = option_map (f k) (nth_error l k).
Proof. unfold imap. now rewrite imap_from_nth_error. Qed.

Lemma imap_length {A B : Type} (f : nat -> A -> B) (l : list A) :
  length (imap f l) = length l.
Proof. apply imap_from_length. Qed.

Lemma imap_In {A B : Type} (f : nat -> A -> B) (l : list A) (k : nat) (a : A) :
  nth_error l k = Some a -> In (f k a) (imap f l).
Proof.
  intros H. apply nth_error_In with k. now rewrite imap_nth_error, H.
Qed.

(** Shapes are compared through the list of row lengths. *)
Lemma has_shape_iff {A : Type} (a : array2 A) (rows cols : nat) :
  has_shape a rows cols <-> shape_of a = repeat cols rows.
Proof.
  unfold has_shape, shape_of. split.
  - intros [<- H]. induction H as [| row a Hrow _ IH]; simpl;
      [reflexivity | now rewrite Hrow, IH].
  - revert rows. induction a as [| row a IH]; intros [| rows] H;
      simpl in *; try discriminate.
    + split; [reflexivity | constructor].
    + injection H as Hrow H. destruct (IH _ H) as [L F].
      split; [now rewrite L | constructor; assumption].
Qed.

Lemma lookup_bounds {A : Type} (a : array2 A) (rows cols r c : nat) (v : A) :
  has_shape a rows cols -> lookup a r c = Some v ->
  (r < rows)%nat /\ (c < cols)%nat.
Proof.
  intros [<- Hrows] H. unfold lookup in H.
  destruct (nth_error a r) as [row |] eqn:E; [| discriminate].
  assert (Hr : (r < length a)%nat) by (apply nth_error_Some; congruence).
  split; [exact Hr |].
  rewrite Forall_forall in Hrows.
  rewrite <- (Hrows row (nth_error_In _ _ E)).
  apply nth_error_Some. congruence.
Qed.

Lemma lookup_total {A : Type} (a : array2 A) (rows cols r c : nat) :
  has_shape a rows cols -> (r < rows)%nat -> (c < cols)%nat ->
  exists v, lookup a r c = Some v.
Proof.
  intros [<- Hrows] Hr Hc. unfold lookup.
  destruct (nth_error a r) as [row |] eqn:E.
  - rewrite Forall_forall in Hrows.
    pose proof (Hrows row (nth_error_In _ _ E)) as Hrow.
    destruct (nth_error row c) as [v |] eqn:E'; [now exists v |].
    apply nth_error_None in E'. lia.
  - apply nth_error_None in E. lia.
Qed.

Lemma lookup_Forall {A : Type} (P : A -> Prop) (a : array2 A) (r c : nat)
  (v : A) :
  Forall (Forall P) a -> lookup a r c = Some v -> P v.
Proof.
  intros H E. unfold lookup in E.
  destruct (nth_error a r) as [row |] eqn:E'; [| discriminate].
  rewrite Forall_forall in H.
  pose proof (H row (nth_error_In _ _ E')) as Hrow.
  rewrite Forall_forall in Hrow. apply Hrow. eapply nth_error_In. exact E.
Qed.

Lemma imap2_lookup {A B : Type} (f : nat -> nat -> A -> B) (a : array2 A)
  (r c : nat) :
  lookup (imap2 f a) r c = option_map (f r c) (lookup a r c).
Proof.
  unfold lookup, imap2. rewrite imap_nth_error.
  destruct (nth_error a r) as [row |]; simpl; [| reflexivity].
  apply imap_nth_error.
Qed.

Lemma imap_rows_shape {A B : Type} (h : nat -> list A -> list B)
  (a : array2 A) :
  (forall r row, length (h r row) = length row) ->
  shape_of (imap h a) = shape_of a.
Proof.
  intros Hh. unfold shape_of, imap. generalize 0%nat.
  induction a as [| row a IH]; intros i; simpl; [reflexivity |].
  now rewrite Hh, IH.
Qed.

Lemma imap2_shape {A B : Type} (f : nat -> nat -> A -> B) (a : array2 A) :
  shape_of (imap2 f a) = shape_of a.
Proof.
  apply imap_rows_shape. intros r row. apply imap_length.
Qed.

Lemma np_full_ok {A : Type} (v : A) (rows cols : Z) :
  (0 <= rows)%Z -> (0 <= cols)%Z ->
  np_full v rows cols = Ok (repeat (repeat v (Z.to_nat cols)) (Z.to_nat rows)).
Proof.
  intros Hr Hc. unfold np_full.
  destruct (Z.ltb_spec rows 0); [lia |].
  destruct (Z.ltb_spec cols 0); [lia | reflexivity].
Qed.

Lemma repeat_shape {A : Type} (v : A) (rows cols : nat) :
  has_shape (repeat (repeat v cols) rows) rows cols.
Proof.
  split; [apply repeat_length |].
  apply Forall_forall. intros row Hrow.
  apply repeat_spec in Hrow. subst. apply repeat_length.
Qed.

(** ** The steps of the mask generator, entry by entry *)

Lemma map2d_lookup {A B : Type} (f : A -> B) (a : array2 A) (r c : nat) :
  lookup (map2d f a) r c = option_map f (lookup a r c).
Proof.
  unfold lookup, map2d. rewrite nth_error_map.
  destruct (nth_error a r) as [row |]; simpl; [| reflexivity].
  apply nth_error_map.
Qed.

Lemma map2d_shape {A B : Type} (f : A -> B) (a : array2 A) :
  shape_of (map2d f a) = shape_of a.
Proof.
  unfold shape_of, map2d. rewrite map_map. apply map_ext.
  intros row. apply length_map.
Qed.

Lemma paint_lookup (region : nat -> nat -> bool) (color : Z) (img : array2 Z)
  (r c : nat) :
  lookup (paint region color img) r c
  = option_map (fun v => if region r c then color else v) (lookup img r c).
Proof.
  exact (imap2_lookup (fun r c v => if region r c then color else v) img r c).
Qed.

Lemma paint_shape (region : nat -> nat -> bool) (color : Z) (img : array2 Z) :
  shape_of (paint region color img) = shape_of img.
Proof.
  exact (imap2_shape (fun r c v => if region r c then color else v) img).
Qed.

Lemma axis_index_first (n : nat) :
  (0 < n)%nat -> axis_index n 0 = Ok 0%nat.
Proof.
  intros Hn. unfold axis_index. simpl.
  destruct (Z.ltb_spec 0 (Z.of_nat n)); [reflexivity | lia].
Qed.

Lemma axis_index_last (n : nat) :
  (0 < n)%nat -> axis_index n (-1) = Ok (n - 1)%nat.
Proof.
  intros Hn. unfold axis_index. change (-1 <? 0)%Z with true. cbv iota.
  destruct (Z.leb_spec 0 (-1 + Z.of_nat n)); [| lia].
  destruct (Z.ltb_spec (-1 + Z.of_nat n) (Z.of_nat n)); [| lia].
  cbn [andb]. f_equal. lia.
Qed.

Lemma assign_row_spec (img : array2 Z) (rows cols : nat) (i v : Z) (k : nat) :
  has_shape img rows cols ->
  axis_index rows i = Ok k ->
  exists img',
    assign_row img i v = Ok img' /\
    has_shape img' rows cols /\
    forall r c,
      lookup img' r c
      = option_map (fun x => if (r =? k)%nat then v else x) (lookup img r c).
Proof.
  intros Hshape Hk. unfold assign_row.
  rewrite (proj1 Hshape), Hk. simpl. eexists. split; [reflexivity |]. split.
  - apply has_shape_iff. rewrite imap_rows_shape.
    + now apply has_shape_iff.
    + intros r row. destruct (r =? k)%nat; [apply length_map | reflexivity].
  - intros r c. unfold lookup. rewrite imap_nth_error.
    destruct (nth_error img r) as [row |]; simpl; [| reflexivity].
    destruct (r =? k)%nat.
    + rewrite nth_error_map. now destruct (nth_error row c).
    + now destruct (nth_error row c).
Qed.

Lemma assign_col_spec (img : array2 Z) (rows cols : nat) (j v : Z) (k : nat) :
  has_shape img rows cols ->
  axis_index cols j = Ok k ->
  exists img',
    assign_col img j v = Ok img' /\
    has_shape img' rows cols /\
    forall r c,
      lookup img' r c
      = option_map (fun x => if (c =? k)%nat then v else x) (lookup img r c).
Proof.
  intros [Hrows Hcols] Hk.
  exists (map (fun row => imap (fun c x => if (c =? k)%nat then v else x) row)
              img).
  split; [| split].
  - unfold assign_col. clear Hrows.
    induction Hcols as [| row img Hrow _ IH]; simpl; [reflexivity |].
    rewrite Hrow, Hk. simpl. now rewrite IH.
  - split; [now rewrite length_map |].
    apply Forall_map. eapply Forall_impl; [| exact Hcols].
    intros row Hrow. simpl. now rewrite imap_length.
  - intros r c. unfold lookup. rewrite nth_error_map.
    destruct (nth_error img r) as [row |]; simpl; [| reflexivity].
    apply imap_nth_error.
Qed.

(** ** Erosion *)

Lemma nth_lookup {A : Type} (a : array2 A) (r c : nat) (d : A) :
  nth c (nth r a []) d = match lookup a r c with Some v => v | None => d end.
Proof.
  unfold lookup. destruct (nth_error a r) as [row |] eqn:E.
  - rewrite (nth_error_nth _ _ [] E).
    destruct (nth_error row c) as [v |] eqn:E'.
    + apply nth_error_nth. exact E'.
    + apply nth_overflow. now apply nth_error_None.
  - rewrite (@nth_overflow _ a r []) by now apply nth_error_None.
    now destruct c.
Qed.

Lemma pixel_or_cases (d : Z) (src : array2 Z) (y x : Z) :
  pixel_or d src y x = d \/
  exists r c, lookup src r c = Some (pixel_or d src y x).
Proof.
  unfold pixel_or. destruct ((y <? 0)%Z || (x <? 0)%Z)%bool; [now left |].
  rewrite nth_lookup.
  destruct (lookup src (Z.to_nat y) (Z.to_nat x)) as [v |] eqn:E;
    [right; eauto | now left].
Qed.

Lemma pixel_or_here (d : Z) (src : array2 Z) (r c : nat) (v : Z) :
  lookup src r c = Some v ->
  pixel_or d src (Z.of_nat r + 0) (Z.of_nat c + 0) = v.
Proof.
  intros E. unfold pixel_or. rewrite !Z.add_0_r.
  destruct (Z.ltb_spec (Z.of_nat r) 0); [lia |].
  destruct (Z.ltb_spec (Z.of_nat c) 0); [lia |]. simpl.
  now rewrite nth_lookup, !Nat2Z.id, E.
Qed.

Lemma fold_min_binary (l : list Z) (x : Z) :
  Forall (fun v => v = 0 \/ v = 1 \/ v = 255)%Z l ->
  In x l -> (x = 0 \/ x = 1)%Z ->
  ((fold_right Z.min 255 l = 0 \/ fold_right Z.min 255 l = 1) /\
   fold_right Z.min 255 l <= x)%Z.
Proof.
  intros Hl Hin Hx.
  assert (Hrange : (fold_right Z.min 255 l = 0 \/ fold_right Z.min 255 l = 1
                    \/ fold_right Z.min 255 l = 255)%Z).
  { clear Hin. induction Hl as [| v l Hv _ IH]; simpl; [now auto |]. lia. }
  assert (Hle : (fold_right Z.min 255 l <= x)%Z).
  { clear Hrange. induction Hl as [| v l Hv Hl IH]; [now destruct Hin |].
    simpl. destruct Hin as [-> | Hin]; [lia |].
    specialize (IH Hin). lia. }
  split; [lia | exact Hle].
Qed.

Lemma kernel_offsets_origin (k : nat) :
  (0 < k)%nat -> In (0, 0)%Z (kernel_offsets (ones k)).
Proof.
  intros Hk. unfold kernel_offsets, ones.
  rewrite repeat_length.
  assert (Hhd : hd [] (repeat (repeat 1%Z k) k) = repeat 1%Z k)
    by (destruct k; [lia | reflexivity]).
  rewrite Hhd, repeat_length.
  assert (Hhalf : (k / 2 < k)%nat) by (apply Nat.div_lt; lia).
  apply in_concat.
  eexists. split.
  - apply imap_In with (k := (k / 2)%nat) (a := repeat 1%Z k).
    apply nth_error_repeat. exact Hhalf.
  - apply in_concat. eexists. split.
    + apply imap_In with (k := (k / 2)%nat) (a := 1%Z).
      apply nth_error_repeat. exact Hhalf.
    + simpl. left. f_equal; lia.
Qed.

Lemma erode_once_lookup (kernel src : array2 Z) (r c : nat) :
  lookup (erode_once kernel src) r c
  = option_map (fun _ => erode_pixel (kernel_offsets kernel) src r c)
               (lookup src r c).
Proof.
  change (erode_once kernel src)
    with (imap2 (fun r c (_ : Z) => erode_pixel (kernel_offsets kernel) src r c)
                src).
  apply imap2_lookup.
Qed.

Lemma erode_once_shape (kernel src : array2 Z) :
  shape_of (erode_once kernel src) = shape_of src.
Proof.
  change (erode_once kernel src)
    with (imap2 (fun r c (_ : Z) => erode_pixel (kernel_offsets kernel) src r c)
                src).
  apply imap2_shape.
Qed.

Lemma erode_pixel_binary (offsets : list (Z * Z)) (src : array2 Z)
  (r c : nat) (v : Z) :
  Forall (Forall (fun x => x = 0 \/ x = 1)%Z) src ->
  In (0, 0)%Z offsets ->
  lookup src r c = Some v ->
  ((erode_pixel offsets src r c = 0 \/ erode_pixel offsets src r c = 1) /\
   erode_pixel offsets src r c <= v)%Z.
Proof.
  intros Hsrc Horigin Hv. unfold erode_pixel.
  apply fold_min_binary.
  - apply Forall_map. apply Forall_forall. intros d _.
    destruct (pixel_or_cases 255 src (Z.of_nat r + fst d) (Z.of_nat c + snd d))
      as [-> | (r' & c' & E)]; [now auto |].
    pose proof (@lookup_Forall _ _ _ _ _ _ Hsrc E) as H. simpl in H. tauto.
  - apply in_map_iff. exists (0, 0)%Z. split; [| exact Horigin].
    simpl. now apply pixel_or_here.
  - exact (@lookup_Forall _ _ _ _ _ _ Hsrc Hv).
Qed.

(** ** The erosion size *)

Lemma tenth_of (image_size : Z) :
  ((1 # 10) * inject_Z image_size)%Q = (image_size # 10).
Proof.
  unfold Qmult, inject_Z. cbn [Qnum Qden]. now rewrite Z.mul_1_l.
Qed.

Lemma erosion_size_floor (image_size : Z) :
  (0 <= image_size)%Z -> erosion_size_of image_size = (image_size / 10)%Z.
Proof.
  intros Hn. unfold erosion_size_of, int_of_Q. rewrite tenth_of.
  destruct (Qlt_le_dec _ 0) as [Hneg | _].
  - exfalso. unfold Qlt in Hneg. cbn [Qnum Qden] in Hneg. lia.
  - reflexivity.
Qed.

Lemma erosion_size_nonneg (image_size : Z) :
  (0 <= image_size)%Z -> (0 <= erosion_size_of image_size)%Z.
Proof.
  intros Hn. rewrite erosion_size_floor by exact Hn.
  apply Z.div_pos; lia.
Qed.

Lemma binary64_agrees_sound (count : nat) (first n : Z) :
  binary64_agrees first count = true ->
  (first <= n < first + Z.of_nat count)%Z ->
  erosion_size_binary64 n = Ok (erosion_size_of n).
Proof.
  revert first. induction count as [| count IH]; intros first Hall Hn.
  - simpl in Hn. lia.
  - cbn [binary64_agrees] in Hall. apply andb_prop in Hall.
    destruct Hall as [Hfirst Hrest].
    destruct (Z.eq_dec n first) as [-> | Hne].
    + destruct (erosion_size_binary64 first) as [k | e]; [| discriminate].
      f_equal. now apply Z.eqb_eq.
    + apply (IH (first + 1)%Z Hrest). lia.
Qed.

Lemma binary64_agrees_checked :
  binary64_agrees 0 (Z.to_nat 4096) = true.
Proof. vm_compute. reflexivity. Qed.

(** In binary64 the product [0.1 * image_size] truncates to the same
    integer, for every side length up to 4095. *)
Lemma erosion_size_binary64_agrees (image_size : Z) :
  (0 <= image_size < 4096)%Z ->
  erosion_size_binary64 image_size = Ok (erosion_size_of image_size).
Proof.
  intros Hn. apply (@binary64_agrees_sound _ 0%Z _ binary64_agrees_checked).
  rewrite Z2Nat.id; lia.
Qed.

(** ** The mask *)

Lemma Forall_of_lookup {A : Type} (P : A -> Prop) (a : array2 A) :
  (forall r c v, lookup a r c = Some v -> P v) -> Forall (Forall P) a.
Proof.
  intros H. apply Forall_forall. intros row Hrow.
  apply Forall_forall. intros v Hv.
  destruct (In_nth_error _ _ Hrow) as [r Er].
  destruct (In_nth_error _ _ Hv) as [c Ec].
  apply (H r c). unfold lookup. now rewrite Er.
Qed.

Section MaskProperties.

Variable ellipse_region :
  Z * Z -> Z * Z -> R -> R -> R -> nat -> nat -> bool.
Variable circle_region : Z * Z -> Z -> nat -> nat -> bool.

Lemma sector_mask_spec (g : Geometry) :
  (0 <= g_radius_start g)%Z -> (0 <= g_radius_end g)%Z ->
  (0 < g_image_size g)%Z ->
  exists mask,
    sector_mask ellipse_region circle_region (config_of g) = Ok mask /\
    has_shape mask (Z.to_nat (g_image_size g)) (Z.to_nat (g_image_size g)) /\
    forall r c v,
      lookup mask r c = Some v ->
      (v = 0 \/ v = 1)%Z /\
      (on_border (Z.to_nat (g_image_size g)) r c -> v = 0%Z).
Proof.
  intros Hrs Hre Hsize. set (n := Z.to_nat (g_image_size g)).
  assert (Hn : (0 < n)%nat) by (unfold n; lia).
  unfold sector_mask. simpl getitem. simpl bind at 1.
  cbn [bind]. rewrite np_full_ok by lia. cbn [bind fst snd].
  unfold cv2_ellipse, cv2_circle. cbn [fst snd].
  destruct (Z.ltb_spec (g_radius_end g) 0); [lia |].
  destruct (Z.ltb_spec (g_radius_start g) 0); [lia |].
  cbn [orb bind]. fold n.
  set (m0 := repeat (repeat 0%Z n) n).
  set (m1 := paint _ 1%Z m0). set (m2 := paint _ 0%Z m1).
  set (m3 := astype_uint8 m2).
  assert (S3 : has_shape m3 n n).
  { apply has_shape_iff. unfold m3, m2, m1, astype_uint8.
    rewrite map2d_shape, !paint_shape.
    apply has_shape_iff. apply repeat_shape. }
  assert (B3 : forall r c v, lookup m3 r c = Some v -> (v = 0 \/ v = 1)%Z).
  { intros r c v. unfold m3, m2, m1, astype_uint8.
    rewrite map2d_lookup, !paint_lookup.
    destruct (lookup m0 r c) as [v0 |] eqn:E0; [| discriminate].
    assert (v0 = 0%Z) as ->.
    { apply (@lookup_Forall _ (fun x => x = 0%Z) m0 r c); [| exact E0].
      apply Forall_forall. intros row Hrow. apply repeat_spec in Hrow.
      subst row. apply Forall_forall. intros x Hx.
      now apply repeat_spec in Hx. }
    simpl. intros Hv. injection Hv as <-.
    destruct (ellipse_region _ _ _ _ _ r c), (circle_region _ _ r c);
      simpl; auto. }
  destruct (@assign_row_spec m3 n n 0 0 _ S3 (axis_index_first Hn))
    as (m4 & E4 & S4 & L4).
  rewrite E4. cbn [bind].
  destruct (@assign_col_spec m4 n n 0 0 _ S4 (axis_index_first Hn))
    as (m5 & E5 & S5 & L5).
  rewrite E5. cbn [bind].
  destruct (@assign_row_spec m5 n n (-1) 0 _ S5 (axis_index_last Hn))
    as (m6 & E6 & S6 & L6).
  rewrite E6. cbn [bind].
  destruct (@assign_col_spec m6 n n (-1) 0 _ S6 (axis_index_last Hn))
    as (m7 & E7 & S7 & L7).
  rewrite E7.
  exists m7. split; [reflexivity |]. split; [exact S7 |].
  intros r c v. rewrite L7, L6, L5, L4.
  destruct (lookup m3 r c) as [v3 |] eqn:E3; [| discriminate].
  specialize (B3 _ _ _ E3). simpl. intros Hv. injection Hv as <-.
  split.
  - destruct (c =? n - 1)%nat, (r =? n - 1)%nat, (c =? 0)%nat, (r =? 0)%nat;
      auto.
  - unfold on_border. intros Hb.
    destruct (Nat.eqb_spec c (n - 1)), (Nat.eqb_spec r (n - 1)),
             (Nat.eqb_spec c 0), (Nat.eqb_spec r 0);
      try reflexivity; exfalso; lia.
Qed.

Lemma cv2_erode_ones (src : array2 Z) (k : nat) :
  cv2_erode src (ones k) 1
  = erode_once (ones (if (k =? 0)%nat then 3 else k)) src.
Proof.
  unfold cv2_erode. destruct k as [| k]; reflexivity.
Qed.

Lemma curvilinear_mask_closed_form (g : Geometry) (pre : array2 Z) :
  (0 <= g_image_size g)%Z ->
  sector_mask ellipse_region circle_region (config_of g) = Ok pre ->
  curvilinear_mask ellipse_region circle_region (config_of g)
  = Ok (cv2_erode pre (ones (Z.to_nat (g_image_size g / 10))) 1).
Proof.
  intros Hsize Hpre. unfold curvilinear_mask. rewrite Hpre.
  cbn [bind getitem config_of curvilinear_image_size].
  pose proof (erosion_size_nonneg Hsize) as Hk.
  rewrite np_full_ok by exact Hk. cbn [bind].
  now rewrite erosion_size_floor by exact Hsize.
Qed.

(** C2, as the code has it.  The mask generator erodes the sector mask
    once; the structuring element is the square of ones whose side is
    [int(0.1 * curvilinear_image_size)], the side length divided by 10
    and truncated. *)
Theorem curvilinear_mask_erodes_once (g : Geometry) :
  valid g ->
  exists pre,
    sector_mask ellipse_region circle_region (config_of g) = Ok pre /\
    curvilinear_mask ellipse_region circle_region (config_of g)
    = Ok (cv2_erode pre (ones (Z.to_nat (g_image_size g / 10))) 1) /\
    cv2_erode pre (ones (Z.to_nat (g_image_size g / 10))) 1
    = erode_once
        (ones (if (Z.to_nat (g_image_size g / 10) =? 0)%nat then 3
               else Z.to_nat (g_image_size g / 10)))
        pre.
Proof.
  intros (_ & [Hrs Hre] & _ & _ & Hsize).
  destruct (@sector_mask_spec g) as (pre & Hpre & _); try lia.
  exists pre. split; [exact Hpre |]. split.
  - apply curvilinear_mask_closed_form; [lia | exact Hpre].
  - apply cv2_erode_ones.
Qed.

Lemma curvilinear_mask_entries (g : Geometry) :
  (0 <= g_radius_start g)%Z -> (0 <= g_radius_end g)%Z ->
  (0 < g_image_size g)%Z ->
  exists mask,
    curvilinear_mask ellipse_region circle_region (config_of g) = Ok mask /\
    has_shape mask (Z.to_nat (g_image_size g)) (Z.to_nat (g_image_size g)) /\
    forall r c v,
      lookup mask r c = Some v ->
      (v = 0 \/ v = 1)%Z /\
      (on_border (Z.to_nat (g_image_size g)) r c -> v = 0%Z).
Proof.
  intros Hrs Hre Hsize.
  destruct (@sector_mask_spec g) as (pre & Hpre & Spre & Bpre); try lia.
  eexists. split.
  { apply curvilinear_mask_closed_form; [lia | exact Hpre]. }
  rewrite cv2_erode_ones.
  set (k := if (Z.to_nat (g_image_size g / 10) =? 0)%nat then 3%nat
            else Z.to_nat (g_image_size g / 10)).
  assert (Hk : (0 < k)%nat).
  { unfold k. destruct (Nat.eqb_spec (Z.to_nat (g_image_size g / 10)) 0);
      lia. }
  split.
  - apply has_shape_iff. rewrite erode_once_shape. now apply has_shape_iff.
  - intros r c v. rewrite erode_once_lookup.
    destruct (lookup pre r c) as [v0 |] eqn:E0; [| discriminate].
    simpl. intros Hv. injection Hv as <-.
    destruct (@erode_pixel_binary (kernel_offsets (ones k)) pre r c v0)
      as [Hbin Hle].
    + apply Forall_of_lookup. intros r' c' v' E'.
      exact (proj1 (Bpre _ _ _ E')).
    + now apply kernel_offsets_origin.
    + exact E0.
    + split; [exact Hbin |].
      intros Hb. pose proof (proj2 (Bpre _ _ _ E0) Hb) as Hz. lia.
Qed.

(** C6.  For a valid configuration the mask generator returns an array of
    shape (curvilinear_image_size, curvilinear_image_size); each entry is
    0 or 1, and each entry of the first and last row and of the first and
    last column is 0. *)
Theorem curvilinear_mask_binary_with_zero_border (g : Geometry) :
  valid g ->
  exists mask,
    curvilinear_mask ellipse_region circle_region (config_of g) = Ok mask /\
    has_shape mask (Z.to_nat (g_image_size g)) (Z.to_nat (g_image_size g)) /\
    forall r c v,
      lookup mask r c = Some v ->
      (v = 0 \/ v = 1)%Z /\
      (on_border (Z.to_nat (g_image_size g)) r c -> v = 0%Z).
Proof.
  intros (_ & [Hrs Hre] & _ & _ & Hsize).
  apply curvilinear_mask_entries; lia.
Qed.

End MaskProperties.

(** ** Constant data through the built weights *)

Section ConstantData.

Variable Delaunay : list vec2 -> result Triangulation.
Variable ellipse_region :
  Z * Z -> Z * Z -> R -> R -> R -> nat -> nat -> bool.
Variable circle_region : Z * Z -> Z -> nat -> nat -> bool.




End ConstantData.

(** ** Preprocessing *)

Lemma nth_Forall_default {A : Type} (P : A -> Prop) (l : list A) (n : nat)
  (d : A) :
  P d -> Forall P l -> P (nth n l d).
Proof.
  intros Pd H. revert n. induction H as [| a l Pa _ IH]; intros [| n]; simpl;
    auto.
Qed.

Lemma pixel_at_zero (input : array2 R) (i j : Z) :
  all_zero input -> pixel_at input i j = 0%R.
Proof.
  intros H. unfold pixel_at.
  destruct ((i <? 0)%Z || (j <? 0)%Z)%bool; [reflexivity |].
  apply (@nth_Forall_default _ (fun v => v = 0%R)); [reflexivity |].
  apply (@nth_Forall_default _ (Forall (fun v => v = 0%R)));
    [constructor | exact H].
Qed.

Lemma sample_linear_zero (input : array2 R) (x y : R) :
  all_zero input -> sample_linear input 0 x y = 0%R.
Proof.
  intros H. unfold sample_linear.
  repeat match goal with
         | |- context [Rle_dec ?a ?b] => destruct (Rle_dec a b)
         end; try reflexivity.
  rewrite !pixel_at_zero by exact H. ring.
Qed.

Lemma zip_with_Forall {A B C : Type} (f : A -> B -> C) (P : C -> Prop)
  (l : list A) (m : list B) :
  (forall a b, In a l -> In b m -> P (f a b)) -> Forall P (zip_with f l m).
Proof.
  revert m. induction l as [| a l IH]; intros [| b m] H; simpl;
    try constructor.
  - apply H; now left.
  - apply IH. intros a' b' Ha Hb. apply H; now right.
Qed.

Lemma map_coordinates_zero (input x_cart y_cart out : array2 R) :
  all_zero input ->
  map_coordinates input x_cart y_cart 0 = Ok out -> all_zero out.
Proof.
  intros Hz. unfold map_coordinates.
  destruct (shape_eqb _ _); [| discriminate].
  intros H. injection H as <-. unfold all_zero, zip_with2d.
  apply zip_with_Forall. intros xs ys _ _.
  apply zip_with_Forall. intros x y _ _. now apply sample_linear_zero.
Qed.

Lemma broadcast_axis_Forall {A : Type} (P : A -> Prop) (n : nat)
  (l l' : list A) :
  broadcast_axis n l = Ok l' -> Forall P l -> Forall P l'.
Proof.
  unfold broadcast_axis. destruct (length l =? n)%nat.
  - intros H. now injection H as <-.
  - destruct l as [| a [| b l]]; try discriminate.
    intros H Hl. injection H as <-. inversion Hl; subst.
    apply Forall_forall. intros x Hx. apply repeat_spec in Hx. now subst.
Qed.

Lemma mapM_Forall {A B : Type} (f : A -> result B) (P : A -> Prop)
  (Q : B -> Prop) (l : list A) (bs : list B) :
  (forall a b, P a -> f a = Ok b -> Q b) ->
  mapM f l = Ok bs -> Forall P l -> Forall Q bs.
Proof.
  intros Hf Hm Hl. apply mapM_Forall2 in Hm.
  induction Hm as [| a b l bs Hab _ IH]; [constructor |].
  inversion Hl; subst. constructor; [eapply Hf; eassumption | now apply IH].
Qed.

Lemma assign_plane_zero (rows cols : nat) (src out : array2 R) :
  assign_plane rows cols src = Ok out -> all_zero src -> all_zero out.
Proof.
  unfold assign_plane. intros H Hz.
  apply bind_ok in H. destruct H as [src' [Hsrc' H]].
  apply (@broadcast_axis_Forall _ _ _ _ _ H).
  eapply mapM_Forall; [| exact Hsrc' | exact Hz].
  intros row row' Hrow Hb. exact (@broadcast_axis_Forall _ _ _ _ _ Hb Hrow).
Qed.

Lemma interpolate_nearest_zero (plane out : array2 R) (size : Z) :
  interpolate_nearest plane size = Ok out -> all_zero plane -> all_zero out.
Proof.
  unfold interpolate_nearest.
  destruct ((size <=? 0)%Z || _ || _)%bool; [discriminate |].
  intros H Hz. injection H as <-. unfold all_zero.
  apply Forall_map. apply Forall_forall. intros i _.
  apply Forall_map. apply Forall_forall. intros j _.
  apply (@nth_Forall_default _ (fun v => v = 0%R)); [reflexivity |].
  apply (@nth_Forall_default _ (Forall (fun v => v = 0%R)));
    [constructor | exact Hz].
Qed.

Lemma np_full_Forall {A : Type} (P : A -> Prop) (v : A) (rows cols : Z)
  (a : array2 A) :
  P v -> np_full v rows cols = Ok a -> Forall (Forall P) a.
Proof.
  intros Pv. unfold np_full. destruct (_ || _)%bool; [discriminate |].
  intros H. injection H as <-.
  apply Forall_forall. intros row Hrow. apply repeat_spec in Hrow. subst.
  apply Forall_forall. intros x Hx. apply repeat_spec in Hx. now subst.
Qed.

Lemma np_index_singleton {A : Type} (a b : A) :
  np_index [a] 0 = Ok b -> b = a.
Proof. unfold np_index. simpl. intros H. now injection H. Qed.

(** With a scan conversion configuration, the frame never reaches the model:
    each channel of the model input is zero throughout. *)
Lemma preprocess_input_zero (image : list (array2 R)) (image_size : Z)
  (cfg : Config) (x_cart y_cart : option (array2 R))
  (tensor : list (array2 R)) :
  preprocess_input image image_size (Some cfg) x_cart y_cart = Ok tensor ->
  Forall all_zero tensor.
Proof.
  unfold preprocess_input. intros H.
  apply bind_ok in H. destruct H as [image' [Himage H]].
  apply bind_ok in Himage. destruct Himage as [ns [_ Himage]].
  apply bind_ok in Himage. destruct Himage as [nl [_ Himage]].
  apply bind_ok in Himage. destruct Himage as [plane [Hplane Himage]].
  apply bind_ok in Himage. destruct Himage as [resampled [Hres Himage]].
  apply bind_ok in Himage. destruct Himage as [plane' [Hassign Himage]].
  injection Himage as <-.
  assert (Hzero : all_zero plane)
    by (exact (@np_full_Forall _ (fun v => v = 0%R) 0%R _ _ _ eq_refl Hplane)).
  assert (Hzres : all_zero resampled).
  { destruct x_cart as [x |], y_cart as [y |]; try discriminate.
    apply bind_ok in Hres. destruct Hres as [src [Hsrc Hres]].
    apply np_index_singleton in Hsrc. subst src.
    exact (@map_coordinates_zero _ _ _ _ Hzero Hres). }
  pose proof (@assign_plane_zero _ _ _ _ Hassign Hzres) as Hz'.
  apply bind_ok in H. destruct H as [p [Hp H]].
  apply np_index_singleton in Hp. subst p.
  eapply mapM_Forall; [| exact H |].
  - intros ch out Hch Hout. exact (@interpolate_nearest_zero _ _ _ Hout Hch).
  - assert (Hch : all_zero (map2d (fun v => (v / 255)%R) plane')).
    { unfold all_zero, map2d. apply Forall_map.
      eapply Forall_impl; [| exact Hz']. intros row Hrow.
      apply Forall_map. eapply Forall_impl; [| exact Hrow].
      intros v ->. unfold Rdiv. ring. }
    repeat constructor; exact Hch.
Qed.

Lemma zip_with2d_shape {A B C : Type} (f : A -> B -> C)
  (a : array2 A) (b : array2 B) (rows cols : nat) :
  has_shape a rows cols -> has_shape b rows cols ->
  has_shape (zip_with2d f a b) rows cols.
Proof.
  intros [La Fa] [Lb Fb]. unfold zip_with2d. split.
  - rewrite zip_with_length; congruence.
  - apply zip_with_Forall. intros ra rb Ha Hb.
    rewrite Forall_forall in Fa, Fb.
    rewrite zip_with_length; [now apply Fa |].
    now rewrite (Fa _ Ha), (Fb _ Hb).
Qed.

Lemma hd_length {A : Type} (a : array2 A) (rows cols : nat) :
  has_shape a rows cols -> (0 < rows)%nat -> length (hd [] a) = cols.
Proof.
  intros [L F] Hr. destruct a as [| row a]; simpl in *; [lia |].
  now inversion F.
Qed.

Lemma assign_plane_same_shape {A : Type} (rows cols : nat) (src : array2 A) :
  has_shape src rows cols -> assign_plane rows cols src = Ok src.
Proof.
  intros [L F]. unfold assign_plane.
  assert (H : mapM (broadcast_axis cols) src = Ok src).
  { clear L. induction F as [| row src Hrow _ IH]; simpl; [reflexivity |].
    unfold broadcast_axis at 1. rewrite Hrow, Nat.eqb_refl. simpl.
    now rewrite IH. }
  rewrite H. simpl. unfold broadcast_axis. now rewrite L, Nat.eqb_refl.
Qed.

Lemma interpolate_nearest_total (plane : array2 R) (size : Z) :
  (0 < size)%Z -> (0 < length plane)%nat -> (0 < length (hd [] plane))%nat ->
  succeeds (interpolate_nearest plane size).
Proof.
  intros Hs Hh Hw. unfold interpolate_nearest.
  destruct (Z.leb_spec size 0); [lia |].
  destruct (Nat.eqb_spec (length plane) 0); [lia |].
  destruct (Nat.eqb_spec (length (hd [] plane)) 0); [lia |].
  simpl. eexists. reflexivity.
Qed.

Lemma np_index_head {A : Type} (a : A) (l : list A) :
  np_index (a :: l) 0 = Ok a.
Proof.
  unfold np_index. cbn [length]. rewrite Nat2Z.inj_succ.
  change (0 <? 0)%Z with false. cbv iota.
  destruct (Z.ltb_spec 0 (Z.succ (Z.of_nat (length l)))); [reflexivity | lia].
Qed.

(** With the sample grid of its own configuration, and at least one line
    and one sample per line, preprocessing returns a model input. *)
Lemma preprocess_input_total (image : list (array2 R)) (image_size : Z)
  (g : Geometry) (x_cart y_cart : array2 R) :
  scan_conversion_inverse (config_of g) = Ok (x_cart, y_cart) ->
  (0 < g_num_lines g)%Z -> (0 < g_num_samples g)%Z -> (0 < image_size)%Z ->
  succeeds (preprocess_input image image_size (Some (config_of g))
                             (Some x_cart) (Some y_cart)).
Proof.
  intros Hgrid Hl Hs Hsize.
  destruct (scan_conversion_inverse_shape g Hgrid) as [Sx Sy].
  set (nl := Z.to_nat (g_num_lines g)) in *.
  set (ns := Z.to_nat (g_num_samples g)) in *.
  unfold preprocess_input.
  cbn [getitem config_of num_samples_along_lines num_lines bind].
  rewrite np_full_ok by lia. cbn [bind].
  rewrite np_index_head. cbn [bind]. unfold map_coordinates, shape_eqb.
  destruct (list_eq_dec Nat.eq_dec (shape_of x_cart) (shape_of y_cart))
    as [_ | Hne].
  2:{ exfalso. apply Hne.
      apply has_shape_iff in Sx. apply has_shape_iff in Sy. congruence. }
  cbn [bind].
  match goal with
  | |- context [assign_plane _ _ ?r] => set (resampled := r)
  end.
  assert (Sres : has_shape resampled nl ns)
    by (now apply zip_with2d_shape).
  fold nl ns. rewrite (assign_plane_same_shape Sres). cbn [bind].
  rewrite np_index_head. cbn [bind].
  set (channel := map2d (fun v => (v / 255)%R) resampled).
  assert (Sch : has_shape channel nl ns).
  { apply has_shape_iff. unfold channel. rewrite map2d_shape.
    now apply has_shape_iff. }
  apply mapM_total.
  assert (Hch : succeeds (interpolate_nearest channel image_size)).
  { apply interpolate_nearest_total; [exact Hsize | |].
    - rewrite (proj1 Sch). unfold nl. lia.
    - rewrite (hd_length Sch) by (unfold nl; lia). unfold ns. lia. }
  repeat constructor; exact Hch.
Qed.

(** C1 at a frame that is not black.  A one-pixel frame of value 255 is
    received under a configuration with one line of one sample at the
    frame's only pixel: resampling the frame there gives 255, but the model
    input the preprocessing returns is zero in all three channels. *)
Theorem preprocess_input_loses_bright_frame :
  let cfg := config_of {| g_angle_min := 0; g_angle_max := 90;
                          g_radius_start := 0; g_radius_end := 1;
                          g_num_lines := 1; g_num_samples := 1;
                          g_center := (0, 0)%Z; g_image_size := 2 |} in
  let frame := [[[255%R]]] in
  scan_conversion_inverse cfg = Ok ([[0%R]], [[0%R]]) /\
  map_coordinates [[255%R]] [[0%R]] [[0%R]] 0 = Ok [[255%R]] /\
  exists tensor,
    preprocess_input frame 2 (Some cfg) (Some [[0%R]]) (Some [[0%R]])
    = Ok tensor /\
    length tensor = 3%nat /\
    Forall all_zero tensor.
Proof.
  cbv zeta.
  assert (Hgrid : scan_conversion_inverse
                    (config_of {| g_angle_min := 0; g_angle_max := 90;
                                  g_radius_start := 0; g_radius_end := 1;
                                  g_num_lines := 1; g_num_samples := 1;
                                  g_center := (0, 0)%Z; g_image_size := 2 |})
                  = Ok ([[0%R]], [[0%R]])).
  { assert (E : forall a b : R, a = 0%R -> b = 0%R ->
                  Ok ([[a]], [[b]]) = Ok ([[0%R]], [[0%R]]))
      by (intros a b -> ->; reflexivity).
    unfold scan_conversion_inverse, linspace. simpl. apply E; ring. }
  split; [exact Hgrid |]. split.
  - unfold map_coordinates. simpl. unfold zip_with2d. simpl.
    do 3 f_equal.
    unfold sample_linear. simpl.
    destruct (Rle_dec 0 0) as [_ | H]; [| exfalso; lra].
    destruct (Rle_dec 0 (1 - 1)) as [_ | H]; [| exfalso; lra].
    change 0%R with (INR 0). rewrite Int_part_INR. simpl.
    unfold pixel_at. simpl. ring.
  - destruct (@preprocess_input_total [[[255%R]]] 2 _ _ _ Hgrid)
      as [tensor Ht]; simpl; try lia.
    exists tensor. split; [exact Ht |]. split.
    + unfold preprocess_input in Ht.
      apply bind_ok in Ht. destruct Ht as [image' [_ Ht]].
      apply bind_ok in Ht. destruct Ht as [plane [_ Ht]].
      now apply mapM_length in Ht.
    + exact (@preprocess_input_zero _ _ _ _ _ _ Ht).
Qed.

(** ** Loading the configuration *)

Lemma getitem_ok {A : Type} (key : string) (field : option A) (v : A) :
  getitem key field = Ok v -> field = Some v.
Proof. destruct field; simpl; congruence. Qed.

Tactic Notation "bind_inv" hyp(H) ident(x) ident(Hx) :=
  apply bind_ok in H; destruct H as [x [Hx H]].

Lemma scan_conversion_inverse_keys (cfg : Config)
  (grid : array2 R * array2 R) :
  scan_conversion_inverse cfg = Ok grid ->
  angle_min_degrees cfg <> None /\ angle_max_degrees cfg <> None /\
  radius_start_pixels cfg <> None /\ radius_end_pixels cfg <> None /\
  num_lines cfg <> None /\ num_samples_along_lines cfg <> None /\
  center_coordinate_pixel cfg <> None.
Proof.
  unfold scan_conversion_inverse. intros H.
  bind_inv H amin Hamin. bind_inv H amax Hamax.
  bind_inv H rs Hrs. bind_inv H re Hre.
  bind_inv H ns Hns. bind_inv H thetas Hthetas.
  bind_inv H nl Hnl. bind_inv H radii Hradii.
  destruct (meshgrid thetas radii) as [theta r].
  bind_inv H c Hc.
  apply getitem_ok in Hamin, Hamax, Hrs, Hre, Hns, Hnl, Hc.
  repeat split; congruence.
Qed.

Lemma np_index_only_IndexError {A : Type} (a : list A) (i : Z) (e : exn) :
  np_index a i = Raise e -> e = IndexError.
Proof.
  unfold np_index. destruct (_ && _)%bool; [| congruence].
  destruct (nth_error _ _); congruence.
Qed.

Lemma bind_raise {A B : Type} (m : result A) (k : A -> result B) (e : exn) :
  bind m k = Raise e ->
  m = Raise e \/ exists a, m = Ok a /\ k a = Raise e.
Proof.
  destruct m as [a | e']; simpl; intros H.
  - right. now exists a.
  - left. now injection H as ->.
Qed.

Tactic Notation "bind_cases" hyp(H) ident(x) ident(Hx) :=
  apply bind_raise in H; destruct H as [H | [x [Hx H]]].

Lemma getitem_raise {A : Type} (key : string) (field : option A) (e : exn) :
  getitem key field = Raise e -> e = KeyError key /\ field = None.
Proof. destruct field; simpl; [discriminate |]. intros H. now injection H. Qed.

Lemma mapM_raise {A B : Type} (f : A -> result B) (l : list A) (e : exn) :
  mapM f l = Raise e -> exists a, In a l /\ f a = Raise e.
Proof.
  induction l as [| a l IH]; simpl; [discriminate |]. intros H.
  bind_cases H b Hb.
  - exists a. auto.
  - bind_cases H bs Hbs; [| discriminate].
    destruct (IH H) as (a' & Ha' & E). exists a'. auto.
Qed.

Section Loading.

Variable Delaunay : list vec2 -> result Triangulation.
Variable ellipse_region :
  Z * Z -> Z * Z -> R -> R -> R -> nat -> nat -> bool.
Variable circle_region : Z * Z -> Z -> nat -> nat -> bool.
Variable infer_and_send : Loaded -> list (array2 R) -> result unit.

Lemma sector_mask_size (cfg : Config) (mask : array2 Z) :
  sector_mask ellipse_region circle_region cfg = Ok mask ->
  exists size, curvilinear_image_size cfg = Some size /\ (0 < size)%Z.
Proof.
  unfold sector_mask. intros H.
  bind_inv H amin Hamin. bind_inv H amax Hamax. bind_inv H c Hc.
  bind_inv H r1 Hr1. bind_inv H r2 Hr2. bind_inv H size Hsize.
  bind_inv H m0 Hm0. bind_inv H m1 Hm1. bind_inv H m2 Hm2.
  bind_inv H m4 Hm4.
  exists size. split; [now apply getitem_ok in Hsize |].
  unfold np_full in Hm0.
  destruct (Z.ltb_spec size 0); [discriminate |].
  simpl in Hm0. injection Hm0 as <-.
  unfold cv2_ellipse in Hm1. destruct (_ || _)%bool; [discriminate |].
  injection Hm1 as <-.
  unfold cv2_circle in Hm2. destruct (_ <? _)%Z; [discriminate |].
  injection Hm2 as <-.
  unfold assign_row in Hm4. bind_inv Hm4 k Hk.
  unfold axis_index in Hk. simpl in Hk.
  destruct (Z.ltb_spec 0 (Z.of_nat (length
    (astype_uint8
       (paint (circle_region (snd c, fst c) r1) 0
          (paint (ellipse_region (snd c, fst c) (r2, r2) 0
                    (90 + amin) (90 + amax)) 1
             (repeat (repeat 0%Z (Z.to_nat size)) (Z.to_nat size))))))))
    as [Hlen | _]; [| discriminate].
  assert (Hshape : shape_of
    (astype_uint8
       (paint (circle_region (snd c, fst c) r1) 0
          (paint (ellipse_region (snd c, fst c) (r2, r2) 0
                    (90 + amin) (90 + amax)) 1
             (repeat (repeat 0%Z (Z.to_nat size)) (Z.to_nat size)))))
    = repeat (Z.to_nat size) (Z.to_nat size)).
  { unfold astype_uint8. rewrite map2d_shape, !paint_shape.
    apply has_shape_iff. apply repeat_shape. }
  apply (f_equal (@length nat)) in Hshape.
  unfold shape_of in Hshape. rewrite length_map, repeat_length in Hshape.
  lia.
Qed.

(** A configuration that loads has every key and a positive image size. *)
Lemma load_scan_conversion_requires (args : Args) (cfg : Config)
  (st : Loaded) :
  args_scanconversion_config args = Some cfg ->
  load_scan_conversion Delaunay ellipse_region circle_region args = Ok st ->
  ~ missing_key cfg /\ ~ nonpositive_size cfg.
Proof.
  intros Hcfg H. unfold load_scan_conversion in H. rewrite Hcfg in H.
  bind_inv H loaded Hloaded.
  bind_inv Hloaded grid Hgrid. destruct grid as [x y].
  injection Hloaded as <-.
  bind_inv H built Hbuilt. destruct built as [vertices weights].
  bind_inv H mask Hmask.
  destruct (scan_conversion_inverse_keys _ Hgrid)
    as (K1 & K2 & K3 & K4 & K5 & K6 & K7).
  unfold curvilinear_mask in Hmask. bind_inv Hmask pre Hpre.
  destruct (sector_mask_size _ Hpre) as (size & Hsize & Hpos).
  split.
  - unfold missing_key. intros Hmiss.
    repeat (destruct Hmiss as [Hmiss | Hmiss]; [congruence |]). congruence.
  - intros (size' & Hsize' & Hle). rewrite Hsize in Hsize'.
    injection Hsize' as ->. lia.
Qed.

(** *** What loading can raise *)

Lemma scan_conversion_inverse_raises (cfg : Config) (e : exn) :
  scan_conversion_inverse cfg = Raise e -> load_error Delaunay cfg e.
Proof.
  unfold scan_conversion_inverse, linspace, load_error, absent,
    negative_count.
  destruct (angle_min_degrees cfg) as [amin |];
    [| intros H; injection H as <-; left; eexists; split;
       [reflexivity | tauto]].
  destruct (angle_max_degrees cfg) as [amax |];
    [| intros H; injection H as <-; left; eexists; split;
       [reflexivity | tauto]].
  destruct (radius_start_pixels cfg) as [rs |];
    [| intros H; injection H as <-; left; eexists; split;
       [reflexivity | tauto]].
  destruct (radius_end_pixels cfg) as [re |];
    [| intros H; injection H as <-; left; eexists; split;
       [reflexivity | tauto]].
  destruct (num_samples_along_lines cfg) as [ns |];
    [| intros H; injection H as <-; left; eexists; split;
       [reflexivity | tauto]].
  cbn [getitem bind].
  destruct (Z.ltb_spec ns 0) as [Hns | Hns].
  { intros H. injection H as <-. right. left. split; [reflexivity |].
    exists ns. split; [now left | exact Hns]. }
  cbn [bind].
  destruct (num_lines cfg) as [nl |];
    [| intros H; injection H as <-; left; eexists; split;
       [reflexivity | tauto]].
  cbn [getitem bind].
  destruct (Z.ltb_spec nl 0) as [Hnl | Hnl].
  { intros H. injection H as <-. right. left. split; [reflexivity |].
    exists nl. split; [tauto | exact Hnl]. }
  cbn [bind meshgrid].
  destruct (center_coordinate_pixel cfg) as [c |];
    [discriminate |
     intros H; injection H as <-; left; eexists; split;
     [reflexivity | tauto]].
Qed.

Lemma scan_interpolation_weights_raises (cfg : Config) (e : exn) :
  scan_interpolation_weights Delaunay cfg = Raise e ->
  load_error Delaunay cfg e.
Proof.
  unfold scan_interpolation_weights. intros H.
  bind_cases H size Hsize.
  { apply getitem_raise in H. destruct H as [-> Hnone].
    left. eexists. split; [reflexivity |]. unfold absent. tauto. }
  bind_cases H grid Hgrid.
  { now apply scan_conversion_inverse_raises. }
  destruct grid as [x y].
  bind_cases H tri Htri.
  { do 4 right. eexists. exact H. }
  assert (Hindex : forall (A : Type) (a : list A) (l : list Z),
             mapM (np_index a) l = Raise e -> load_error Delaunay cfg e).
  { intros A a l Hm. apply mapM_raise in Hm. destruct Hm as (i & _ & Hi).
    apply np_index_only_IndexError in Hi. subst e.
    right. right. right. now left. }
  bind_cases H vs Hvs; [now apply Hindex in H |].
  bind_cases H X HX; [now apply Hindex in H |].
  bind_cases H off Hoff; [now apply Hindex in H |].
  discriminate H.
Qed.

Lemma np_full_raise {A : Type} (v : A) (rows cols : Z) (e : exn) :
  np_full v rows cols = Raise e ->
  e = ValueError /\ ((rows < 0)%Z \/ (cols < 0)%Z).
Proof.
  unfold np_full.
  destruct (Z.ltb_spec rows 0) as [Hr | Hr]; simpl.
  - intros H. injection H as <-. auto.
  - destruct (Z.ltb_spec cols 0) as [Hc | Hc]; simpl; [| discriminate].
    intros H. injection H as <-. auto.
Qed.

Lemma axis_index_raise (n : nat) (i : Z) (e : exn) :
  axis_index n i = Raise e -> e = IndexError.
Proof.
  unfold axis_index. destruct (_ && _)%bool; [discriminate |].
  intros H. now injection H.
Qed.

Lemma assign_row_raise (img : array2 Z) (i v : Z) (e : exn) :
  assign_row img i v = Raise e -> e = IndexError.
Proof.
  unfold assign_row. intros H. bind_cases H k Hk; [| discriminate].
  now apply axis_index_raise in H.
Qed.

Lemma assign_col_raise (img : array2 Z) (j v : Z) (e : exn) :
  assign_col img j v = Raise e -> e = IndexError.
Proof.
  unfold assign_col. intros H. apply mapM_raise in H.
  destruct H as (row & _ & H). bind_cases H k Hk; [| discriminate].
  now apply axis_index_raise in H.
Qed.

Lemma sector_mask_raises (cfg : Config) (e : exn) :
  sector_mask ellipse_region circle_region cfg = Raise e ->
  load_error Delaunay cfg e.
Proof.
  unfold sector_mask. intros H.
  assert (Hkey : forall (A : Type) (key : string) (field : option A),
             getitem key field = Raise e -> absent key cfg ->
             load_error Delaunay cfg e).
  { intros A key field Hg Habs. apply getitem_raise in Hg.
    destruct Hg as [-> _]. left. now exists key. }
  bind_cases H amin Hamin.
  { pose proof (getitem_raise _ _ H) as [_ Hn].
    apply (Hkey _ _ _ H). unfold absent. tauto. }
  bind_cases H amax Hamax.
  { pose proof (getitem_raise _ _ H) as [_ Hn].
    apply (Hkey _ _ _ H). unfold absent. tauto. }
  bind_cases H c Hc.
  { pose proof (getitem_raise _ _ H) as [_ Hn].
    apply (Hkey _ _ _ H). unfold absent. tauto. }
  bind_cases H r1 Hr1.
  { pose proof (getitem_raise _ _ H) as [_ Hn].
    apply (Hkey _ _ _ H). unfold absent. tauto. }
  bind_cases H r2 Hr2.
  { pose proof (getitem_raise _ _ H) as [_ Hn].
    apply (Hkey _ _ _ H). unfold absent. tauto. }
  bind_cases H size Hsize.
  { pose proof (getitem_raise _ _ H) as [_ Hn].
    apply (Hkey _ _ _ H). unfold absent. tauto. }
  apply getitem_ok in Hr1, Hr2, Hsize.
  bind_cases H m0 Hm0.
  { apply np_full_raise in H. destruct H as [-> Hneg].
    right. left. split; [reflexivity |]. exists size.
    split; [tauto | lia]. }
  bind_cases H m1 Hm1.
  { unfold cv2_ellipse in H. cbn [fst snd] in H.
    destruct (Z.ltb_spec r2 0) as [Hneg | Hneg]; simpl in H;
      [| discriminate].
    injection H as <-. right. right. left. split; [reflexivity |].
    exists r2. split; [tauto | lia]. }
  bind_cases H m2 Hm2.
  { unfold cv2_circle in H.
    destruct (Z.ltb_spec r1 0) as [Hneg | Hneg]; simpl in H;
      [| discriminate].
    injection H as <-. right. right. left. split; [reflexivity |].
    exists r1. split; [tauto | lia]. }
  assert (Hindex : e = IndexError -> load_error Delaunay cfg e)
    by (intros ->; right; right; right; now left).
  bind_cases H m3 Hm3; [apply Hindex; now apply assign_row_raise in H |].
  bind_cases H m4 Hm4; [apply Hindex; now apply assign_col_raise in H |].
  bind_cases H m5 Hm5; [apply Hindex; now apply assign_row_raise in H |].
  apply Hindex. now apply assign_col_raise in H.
Qed.

Lemma curvilinear_mask_raises (cfg : Config) (e : exn) :
  curvilinear_mask ellipse_region circle_region cfg = Raise e ->
  load_error Delaunay cfg e.
Proof.
  unfold curvilinear_mask. intros H.
  bind_cases H pre Hpre; [now apply sector_mask_raises |].
  pose proof Hpre as Hs. apply sector_mask_size in Hs.
  destruct Hs as (size & Hsize & Hpos).
  rewrite Hsize in H. cbn [getitem bind] in H.
  bind_cases H kernel Hkernel; [| discriminate].
  apply np_full_raise in H. destruct H as [_ Hneg].
  pose proof (@erosion_size_nonneg size ltac:(lia)). lia.
Qed.

Lemma load_scan_conversion_raises (args : Args) (cfg : Config) (e : exn) :
  args_scanconversion_config args = Some cfg ->
  load_scan_conversion Delaunay ellipse_region circle_region args = Raise e ->
  load_error Delaunay cfg e.
Proof.
  intros Hcfg H. unfold load_scan_conversion in H. rewrite Hcfg in H.
  bind_cases H loaded Hloaded.
  { bind_cases H grid Hgrid; [now apply scan_conversion_inverse_raises |].
    destruct grid. discriminate H. }
  bind_inv Hloaded grid Hgrid.
  destruct grid as [x y]. injection Hloaded as <-.
  bind_cases H built Hbuilt; [now apply scan_interpolation_weights_raises |].
  destruct built as [vertices weights].
  bind_cases H mask Hmask; [now apply curvilinear_mask_raises |].
  discriminate H.
Qed.

(** C3, as the code has it.  A configuration that lacks a required key, or
    whose curvilinear_image_size is not positive, ends the client with an
    exception before it has produced a model input for any frame.  The
    exception is a KeyError that names an absent key, a ValueError for a
    negative count or size, an error of OpenCV for a negative radius, an
    IndexError, or the exception the triangulation routine raised. *)
Theorem run_client_rejects_at_load (args : Args) (cfg : Config)
  (messages : list Message) :
  args_scanconversion_config args = Some cfg ->
  missing_key cfg \/ nonpositive_size cfg ->
  exists e,
    run_client Delaunay ellipse_region circle_region infer_and_send
               args messages
    = {| model_inputs := []; raised := Some e |} /\
    load_error Delaunay cfg e.
Proof.
  intros Hcfg Hbad. unfold run_client.
  destruct (load_scan_conversion Delaunay ellipse_region circle_region args)
    as [st | e] eqn:Hload.
  - destruct (load_scan_conversion_requires args Hcfg Hload) as [Hk Hs].
    tauto.
  - exists e. split; [reflexivity |].
    exact (load_scan_conversion_raises args Hcfg Hload).
Qed.

End Loading.

(** ** A configuration that loads *)

Section Starting.

Variable Delaunay : list vec2 -> result Triangulation.
Variable ellipse_region :
  Z * Z -> Z * Z -> R -> R -> R -> nat -> nat -> bool.
Variable circle_region : Z * Z -> Z -> nat -> nat -> bool.
Variable infer_and_send : Loaded -> list (array2 R) -> result unit.

(** Loading asks for counts, radii that are not negative and a positive
    image size; it does not compare the two radii or the two angles. *)
Lemma load_scan_conversion_total (g : Geometry) (tri : Triangulation)
  (npoints : nat) (args : Args) :
  args_scanconversion_config args = Some (config_of g) ->
  (0 <= g_num_lines g)%Z -> (0 <= g_num_samples g)%Z ->
  (0 <= g_radius_start g)%Z -> (0 <= g_radius_end g)%Z ->
  (0 < g_image_size g)%Z ->
  (forall x_cart y_cart,
      scan_conversion_inverse (config_of g) = Ok (x_cart, y_cart) ->
      Delaunay (combine (flatten x_cart) (flatten y_cart)) = Ok tri) ->
  well_formed npoints tri ->
  exists x_cart y_cart vertices weights mask,
    scan_conversion_inverse (config_of g) = Ok (x_cart, y_cart) /\
    load_scan_conversion Delaunay ellipse_region circle_region args
    = Ok {| loaded_config := Some (config_of g);
            loaded_x_cart := Some x_cart; loaded_y_cart := Some y_cart;
            loaded_vertices := Some vertices;
            loaded_weights := Some weights;
            loaded_mask_array := Some mask |}.
Proof.
  intros Hcfg Hl Hs Hrs Hre Hsize HD Hwf.
  destruct (scan_conversion_inverse_total g Hl Hs) as [[x y] Hgrid].
  destruct (@scan_interpolation_weights_total Delaunay g tri _ Hl Hs HD Hwf)
    as (vertices & weights & Hrun & _).
  destruct (@curvilinear_mask_entries ellipse_region circle_region g
              Hrs Hre Hsize) as (mask & Hmask & _).
  exists x, y, vertices, weights, mask. split; [exact Hgrid |].
  unfold load_scan_conversion. rewrite Hcfg, Hgrid. cbn [bind].
  rewrite Hrun. cbn [bind]. rewrite Hmask. reflexivity.
Qed.

Lemma run_client_first_frame (g : Geometry) (tri : Triangulation)
  (npoints : nat) (args : Args) (message : Message) :
  args_scanconversion_config args = Some (config_of g) ->
  (0 < g_num_lines g)%Z -> (0 < g_num_samples g)%Z ->
  (0 <= g_radius_start g)%Z -> (0 <= g_radius_end g)%Z ->
  (0 < g_image_size g)%Z -> (0 < args_image_size args)%Z ->
  (forall x_cart y_cart,
      scan_conversion_inverse (config_of g) = Ok (x_cart, y_cart) ->
      Delaunay (combine (flatten x_cart) (flatten y_cart)) = Ok tri) ->
  well_formed npoints tri ->
  device_name message = args_input_device_name args ->
  (forall st image, infer_and_send st image = Ok tt) ->
  exists tensor,
    run_client Delaunay ellipse_region circle_region infer_and_send
               args [message]
    = {| model_inputs := [tensor]; raised := None |}.
Proof.
  intros Hcfg Hl Hs Hrs Hre Hsize Himg HD Hwf Hname Hsend.
  destruct (@load_scan_conversion_total g tri npoints args)
    as (x & y & vertices & weights & mask & Hgrid & Hload);
    try assumption; try lia.
  destruct (@preprocess_input_total (message_image message)
              (args_image_size args) g x y Hgrid Hl Hs Himg)
    as [tensor Htensor].
  exists tensor. unfold run_client. rewrite Hload.
  cbn [frame_loop loaded_config loaded_x_cart loaded_y_cart].
  rewrite Hname, String.eqb_refl, Htensor, Hsend. reflexivity.
Qed.

End Starting.

(** ** Indices of the forward converter *)

Lemma np_index_outside {A : Type} (a : list A) (i : Z) :
  ~ index_ok (length a) i -> np_index a i = Raise IndexError.
Proof.
  unfold index_ok, np_index. intros H.
  destruct (Z.ltb_spec i 0) as [Hneg | Hpos].
  - destruct (Z.leb_spec 0 (i + Z.of_nat (length a)));
      destruct (Z.ltb_spec (i + Z.of_nat (length a)) (Z.of_nat (length a)));
      try reflexivity.
    exfalso. apply H. lia.
  - destruct (Z.leb_spec 0 i);
      destruct (Z.ltb_spec i (Z.of_nat (length a)));
      try reflexivity.
    exfalso. apply H. lia.
Qed.

Lemma np_index_ok_inside {A : Type} (a : list A) (i : Z) (v : A) :
  np_index a i = Ok v -> index_ok (length a) i.
Proof.
  intros H. unfold index_ok.
  destruct (Z_lt_dec i (- Z.of_nat (length a))) as [Hlo | Hlo];
    [| destruct (Z_lt_dec i (Z.of_nat (length a))) as [Hhi | Hhi]];
    try lia; rewrite np_index_outside in H; try discriminate;
    unfold index_ok; lia.
Qed.

Lemma take_row_outside (z : list R) (v : row3 Z) :
  ~ row_ok (length z) v -> take_row z v = Raise IndexError.
Proof.
  destruct v as [[v0 v1] v2]. unfold row_ok, take_row. simpl. intros H.
  destruct (np_index z v0) as [a0 | e0] eqn:E0; simpl.
  2:{ now rewrite (np_index_only_IndexError _ _ E0). }
  destruct (np_index z v1) as [a1 | e1] eqn:E1; simpl.
  2:{ now rewrite (np_index_only_IndexError _ _ E1). }
  destruct (np_index z v2) as [a2 | e2] eqn:E2; simpl.
  2:{ now rewrite (np_index_only_IndexError _ _ E2). }
  exfalso. apply H. repeat split; eapply np_index_ok_inside; eassumption.
Qed.

Lemma take_row_only_IndexError (z : list R) (v : row3 Z) (e : exn) :
  take_row z v = Raise e -> e = IndexError.
Proof.
  destruct v as [[v0 v1] v2]. unfold take_row.
  destruct (np_index z v0) as [a0 | e0] eqn:E0; simpl.
  2:{ intros H. injection H as <-. eapply np_index_only_IndexError; eauto. }
  destruct (np_index z v1) as [a1 | e1] eqn:E1; simpl.
  2:{ intros H. injection H as <-. eapply np_index_only_IndexError; eauto. }
  destruct (np_index z v2) as [a2 | e2] eqn:E2; simpl; [discriminate |].
  intros H. injection H as <-. eapply np_index_only_IndexError; eauto.
Qed.

Lemma take_rows_outside (z : list R) (vertices : list (row3 Z)) :
  Exists (fun v => ~ row_ok (length z) v) vertices ->
  mapM (take_row z) vertices = Raise IndexError.
Proof.
  induction 1 as [v vs Hv | v vs _ IH]; simpl.
  - now rewrite take_row_outside.
  - destruct (take_row z v) as [a | e] eqn:E; simpl.
    + now rewrite IH.
    + now rewrite (take_row_only_IndexError _ _ E).
Qed.

(** C7, as the code has it.  The forward converter does not look at the
    shape of linear_data: two inputs with the same row-major flattening
    convert alike, and the call raises an IndexError when a vertex index
    points outside the flattened data. *)
Theorem scan_convert_reads_only_the_flattening
  (linear_data linear_data' : array2 R) (cfg : Config)
  (vertices : list (row3 Z)) (weights : list (row3 R)) :
  (flatten linear_data = flatten linear_data' ->
   scan_convert linear_data cfg vertices weights
   = scan_convert linear_data' cfg vertices weights) /\
  (Exists (fun v => ~ row_ok (length (flatten linear_data)) v) vertices ->
   scan_convert linear_data cfg vertices weights = Raise IndexError).
Proof.
  split.
  - intros H. unfold scan_convert. now rewrite H.
  - intros H. unfold scan_convert. now rewrite take_rows_outside.
Qed.

(** ** The sample inputs *)

Lemma valid_scenario_a : valid scenario_a.
Proof. unfold valid, scenario_a. simpl. repeat split; try lia; lra. Qed.

Lemma valid_scenario_256 : valid scenario_256.
Proof. unfold valid, scenario_256. simpl. repeat split; try lia; lra. Qed.

Lemma one_triangle_well_formed : well_formed 3 one_triangle.
Proof.
  constructor; simpl.
  - discriminate.
  - reflexivity.
  - intros _. lia.
  - repeat constructor; simpl; lia.
Qed.






Lemma fixed_Delaunay_answers (g : Geometry) (t : Triangulation)
  (x_cart y_cart : array2 R) :
  scan_conversion_inverse (config_of g) = Ok (x_cart, y_cart) ->
  fixed_Delaunay t (combine (flatten x_cart) (flatten y_cart)) = Ok t.
Proof. reflexivity. Qed.

(** C2 at a side of 256 pixels: the script's structuring element has side
    25, in rational and in binary64 arithmetic alike, where rounding
    0.1 * 256 = 25.6 gives 26. *)
Lemma erosion_side_256_is_not_rounded :
  valid scenario_256 /\
  erosion_size_of (g_image_size scenario_256) = 25%Z /\
  erosion_size_binary64 (g_image_size scenario_256) = Ok 25%Z /\
  spec_erosion_side (g_image_size scenario_256) = 26%Z.
Proof.
  split; [exact valid_scenario_256 |].
  repeat split; vm_compute; reflexivity.
Qed.

Lemma curvilinear_mask_erodes_once_witness :
  valid scenario_a /\
  exists pre,
    sector_mask disc_ellipse in_disc (config_of scenario_a) = Ok pre /\
    curvilinear_mask disc_ellipse in_disc (config_of scenario_a)
    = Ok (cv2_erode pre
            (ones (Z.to_nat (g_image_size scenario_a / 10))) 1) /\
    cv2_erode pre (ones (Z.to_nat (g_image_size scenario_a / 10))) 1
    = erode_once
        (ones (if (Z.to_nat (g_image_size scenario_a / 10) =? 0)%nat then 3
               else Z.to_nat (g_image_size scenario_a / 10)))
        pre.
Proof.
  split; [exact valid_scenario_a |].
  exact (curvilinear_mask_erodes_once disc_ellipse in_disc valid_scenario_a).
Defined.

(** C3 at exchanged radii: radius_end_pixels is below radius_start_pixels,
    the configuration loads, and the first frame yields a model input. *)
Lemma reversed_radii_load_and_run :
  (g_radius_end reversed_radii <= g_radius_start reversed_radii)%Z /\
  exists tensor,
    run_client (fixed_Delaunay one_triangle) disc_ellipse in_disc
               always_sends (client_args reversed_radii) [bright_frame]
    = {| model_inputs := [tensor]; raised := None |}.
Proof.
  split; [simpl; lia |].
  apply (@run_client_first_frame (fixed_Delaunay one_triangle) disc_ellipse
           in_disc always_sends reversed_radii one_triangle 3);
    simpl; try lia; try reflexivity.
  exact one_triangle_well_formed.
Qed.

Lemma run_client_rejects_at_load_witness :
  args_scanconversion_config (args_with no_radius_end) = Some no_radius_end /\
  (missing_key no_radius_end \/ nonpositive_size no_radius_end) /\
  exists e,
    run_client (fixed_Delaunay one_triangle) disc_ellipse in_disc
               always_sends (args_with no_radius_end) [bright_frame]
    = {| model_inputs := []; raised := Some e |} /\
    load_error (fixed_Delaunay one_triangle) no_radius_end e.
Proof.
  assert (Hmiss : missing_key no_radius_end \/ nonpositive_size no_radius_end).
  { left. unfold missing_key. simpl. tauto. }
  split; [reflexivity |]. split; [exact Hmiss |].
  exact (@run_client_rejects_at_load (fixed_Delaunay one_triangle)
           disc_ellipse in_disc always_sends (args_with no_radius_end)
           no_radius_end [bright_frame] eq_refl Hmiss).
Defined.




Lemma curvilinear_mask_binary_with_zero_border_witness :
  valid scenario_a /\
  exists mask,
    curvilinear_mask disc_ellipse in_disc (config_of scenario_a) = Ok mask /\
    has_shape mask 512 512 /\
    forall r c v,
      lookup mask r c = Some v ->
      (v = 0 \/ v = 1)%Z /\ (on_border 512 r c -> v = 0%Z).
Proof.
  split; [exact valid_scenario_a |].
  exact (curvilinear_mask_binary_with_zero_border disc_ellipse in_disc
           valid_scenario_a).
Defined.

(** C7 at data of another shape: the weights are built for the grid of one
    line of three samples, linear_data has three lines of one sample, and
    the converter returns an image. *)
Lemma scan_convert_accepts_other_shape :
  ~ has_shape sevens_3x1 (Z.to_nat (g_num_lines small_fan))
                         (Z.to_nat (g_num_samples small_fan)) /\
  exists vertices weights image,
    scan_interpolation_weights (fixed_Delaunay one_triangle)
                               (config_of small_fan)
    = Ok (vertices, weights) /\
    scan_convert sevens_3x1 (config_of small_fan) vertices weights = Ok image.
Proof.
  split.
  - intros [Hrows _]. discriminate Hrows.
  - destruct (@scan_interpolation_weights_total
                (fixed_Delaunay one_triangle) small_fan one_triangle 3)
      as (vertices & weights & Hrun & Lv & Lw & Hin);
      simpl; try lia; try reflexivity; try exact one_triangle_well_formed.
    assert (Hdata : Forall (Forall (fun x => x = 7%R)) sevens_3x1)
      by (repeat constructor).
    assert (Hvs : Forall (fun s : row3 Z =>
                    in_range (length (flatten sevens_3x1)) (fst (fst s)) /\
                    in_range (length (flatten sevens_3x1)) (snd (fst s)) /\
                    in_range (length (flatten sevens_3x1)) (snd s)) vertices).
    { eapply Forall_impl; [| exact Hin].
      intros v [<- | []]. unfold in_range. simpl. lia. }
    assert (Hlen : length vertices = length weights) by congruence.
    assert (Hsq : Z.of_nat (length weights) = (4 * 4)%Z)
      by (rewrite Lw; reflexivity).
    destruct (@scan_convert_constant sevens_3x1 7%R (config_of small_fan) 4
                vertices weights eq_refl ltac:(lia) Hdata Hvs Hlen Hsq)
      as (image & Himg & _).
    exists vertices, weights, image. split; assumption.
Qed.

Lemma scan_convert_reads_only_the_flattening_witness :
  flatten sevens_1x3 = flatten sevens_3x1 /\
  scan_convert sevens_1x3 (config_of small_fan) [(0, 1, 2)%Z] [(1, 0, 0)%R]
  = scan_convert sevens_3x1 (config_of small_fan) [(0, 1, 2)%Z] [(1, 0, 0)%R]
  /\
  Exists (fun v => ~ row_ok (length (flatten sevens_1x3)) v) [(0, 1, 3)%Z] /\
  scan_convert sevens_1x3 (config_of small_fan) [(0, 1, 3)%Z] [(1, 0, 0)%R]
  = Raise IndexError.
Proof.
  assert (Hflat : flatten sevens_1x3 = flatten sevens_3x1) by reflexivity.
  assert (Hout : Exists (fun v => ~ row_ok (length (flatten sevens_1x3)) v)
                        [(0, 1, 3)%Z]).
  { constructor. unfold row_ok, index_ok. simpl. lia. }
  split; [exact Hflat |]. split.
  - exact (proj1 (scan_convert_reads_only_the_flattening
                    sevens_1x3 sevens_3x1 (config_of small_fan)
                    [(0, 1, 2)%Z] [(1, 0, 0)%R]) Hflat).
  - split; [exact Hout |].
    exact (proj2 (scan_convert_reads_only_the_flattening
                    sevens_1x3 sevens_3x1 (config_of small_fan)
                    [(0, 1, 3)%Z] [(1, 0, 0)%R]) Hout).
Defined.



(** * Further properties of the scan conversion code *)

(** ** The erosion size in binary64 *)

(** X2.  For every image size from 0 to 4095 the binary64 evaluation of
    [int(0.1 * image_size)] is the integer quotient of the size by 10:
    the rounding of the literal 0.1 and of the product never moves the
    result across an integer. *)
Theorem erosion_size_binary64_is_quotient (image_size : Z) :
  (0 <= image_size < 4096)%Z ->
  erosion_size_binary64 image_size = Ok (image_size / 10)%Z.
Proof.
  intros Hn. rewrite erosion_size_binary64_agrees by exact Hn.
  f_equal. apply erosion_size_floor. lia.
Qed.

Lemma erosion_size_binary64_is_quotient_witness :
  (0 <= 512 < 4096)%Z /\ erosion_size_binary64 512 = Ok (512 / 10)%Z.
Proof.
  split; [lia |]. apply erosion_size_binary64_is_quotient. lia.
Defined.

(** ** The mask inside the drawn sector, and its margin *)

Lemma kernel_offsets_member (k i j : nat) :
  (i < k)%nat -> (j < k)%nat ->
  In ((Z.of_nat i - Z.of_nat (k / 2))%Z, (Z.of_nat j - Z.of_nat (k / 2))%Z)
     (kernel_offsets (ones k)).
Proof.
  intros Hi Hj. unfold kernel_offsets, ones.
  rewrite repeat_length.
  assert (Hhd : hd [] (repeat (repeat 1%Z k) k) = repeat 1%Z k)
    by (destruct k; [lia | reflexivity]).
  rewrite Hhd, repeat_length.
  apply in_concat. eexists. split.
  - apply imap_In with (k := i) (a := repeat 1%Z k).
    apply nth_error_repeat. exact Hi.
  - apply in_concat. eexists. split.
    + apply imap_In with (k := j) (a := 1%Z).
      apply nth_error_repeat. exact Hj.
    + simpl. left. reflexivity.
Qed.

Lemma pixel_or_at (d : Z) (src : array2 Z) (r c : nat) (y x v : Z) :
  lookup src r c = Some v -> y = Z.of_nat r -> x = Z.of_nat c ->
  pixel_or d src y x = v.
Proof.
  intros E -> ->. unfold pixel_or.
  destruct (Z.ltb_spec (Z.of_nat r) 0); [lia |].
  destruct (Z.ltb_spec (Z.of_nat c) 0); [lia |]. simpl.
  now rewrite nth_lookup, !Nat2Z.id, E.
Qed.

Lemma erode_pixel_zero (offsets : list (Z * Z)) (src : array2 Z)
  (r c r' c' : nat) (d : Z * Z) :
  Forall (Forall (fun x => x = 0 \/ x = 1)%Z) src ->
  In d offsets ->
  (Z.of_nat r + fst d = Z.of_nat r')%Z ->
  (Z.of_nat c + snd d = Z.of_nat c')%Z ->
  lookup src r' c' = Some 0%Z ->
  erode_pixel offsets src r c = 0%Z.
Proof.
  intros Hsrc Hd Hr Hc Hzero. unfold erode_pixel.
  destruct (@fold_min_binary
              (map (fun d => pixel_or 255 src (Z.of_nat r + fst d)
                                      (Z.of_nat c + snd d)) offsets) 0%Z)
    as [Hbin Hle].
  - apply Forall_map. apply Forall_forall. intros e _.
    destruct (pixel_or_cases 255 src (Z.of_nat r + fst e) (Z.of_nat c + snd e))
      as [-> | (r0 & c0 & E)]; [now auto |].
    pose proof (@lookup_Forall _ _ _ _ _ _ Hsrc E) as H. simpl in H. tauto.
  - apply in_map_iff. exists d. split; [| exact Hd].
    now apply (@pixel_or_at 255 src r' c').
  - now left.
  - lia.
Qed.

Lemma Forall2_nth_error_right {A B : Type} (P : A -> B -> Prop)
  (l : list A) (m : list B) (i : nat) (b : B) :
  Forall2 P l m -> nth_error m i = Some b ->
  exists a, nth_error l i = Some a /\ P a b.
Proof.
  intros H. revert i. induction H as [| a' b' l m Hab _ IH]; intros [| i] E;
    simpl in *; try discriminate.
  - injection E as <-. now exists a'.
  - now apply IH.
Qed.

Lemma Forall2_nth_error_left {A B : Type} (P : A -> B -> Prop)
  (l : list A) (m : list B) (i : nat) (a : A) :
  Forall2 P l m -> nth_error l i = Some a ->
  exists b, nth_error m i = Some b /\ P a b.
Proof.
  intros H. revert i. induction H as [| a' b' l m Hab _ IH]; intros [| i] E;
    simpl in *; try discriminate.
  - injection E as <-. now exists b'.
  - now apply IH.
Qed.

Section MaskFurther.

Variable ellipse_region :
  Z * Z -> Z * Z -> R -> R -> R -> nat -> nat -> bool.
Variable circle_region : Z * Z -> Z -> nat -> nat -> bool.

Lemma sector_mask_inside_regions (g : Geometry) (pre : array2 Z)
  (r c : nat) :
  sector_mask ellipse_region circle_region (config_of g) = Ok pre ->
  lookup pre r c = Some 1%Z ->
  ellipse_region (snd (g_center g), fst (g_center g))
                 (g_radius_end g, g_radius_end g) 0
                 (90 + g_angle_min g) (90 + g_angle_max g) r c = true /\
  circle_region (snd (g_center g), fst (g_center g)) (g_radius_start g) r c
  = false.
Proof.
  unfold sector_mask.
  cbn [getitem config_of angle_min_degrees angle_max_degrees
       center_coordinate_pixel radius_start_pixels radius_end_pixels
       curvilinear_image_size bind].
  intros H.
  bind_inv H m0 Hm0. bind_inv H m1 Hm1. bind_inv H m2 Hm2.
  bind_inv H m4 Hm4. bind_inv H m5 Hm5. bind_inv H m6 Hm6.
  unfold cv2_ellipse in Hm1. destruct (_ || _)%bool; [discriminate |].
  injection Hm1 as <-.
  unfold cv2_circle in Hm2. destruct (_ <? _)%Z; [discriminate |].
  injection Hm2 as <-.
  assert (Hm0' : Forall (Forall (fun v => v = 0%Z)) m0)
    by (exact (@np_full_Forall _ (fun v => v = 0%Z) 0%Z _ _ _ eq_refl Hm0)).
  set (m3 := astype_uint8 _) in *.
  assert (Hrow : forall img i img',
             assign_row img i 0 = Ok img' ->
             lookup img' r c = Some 1%Z -> lookup img r c = Some 1%Z).
  { intros img i img' Ha. unfold assign_row in Ha. bind_inv Ha k Hk.
    injection Ha as <-. unfold lookup. rewrite imap_nth_error.
    destruct (nth_error img r) as [row |]; simpl; [| discriminate].
    destruct (r =? k)%nat; [| trivial].
    rewrite nth_error_map. destruct (nth_error row c); simpl; congruence. }
  assert (Hcol : forall img j img',
             assign_col img j 0 = Ok img' ->
             lookup img' r c = Some 1%Z -> lookup img r c = Some 1%Z).
  { intros img j img' Ha. unfold assign_col in Ha.
    apply mapM_Forall2 in Ha. unfold lookup.
    destruct (nth_error img' r) as [row' |] eqn:E'; [| discriminate].
    destruct (Forall2_nth_error_right _ Ha E') as (row & E & Hrow').
    rewrite E. bind_inv Hrow' k Hk. injection Hrow' as <-.
    rewrite imap_nth_error. destruct (nth_error row c); simpl; [| discriminate].
    destruct (c =? k)%nat; congruence. }
  intros Hone.
  apply (Hcol _ _ _ H) in Hone. apply (Hrow _ _ _ Hm6) in Hone.
  apply (Hcol _ _ _ Hm5) in Hone. apply (Hrow _ _ _ Hm4) in Hone.
  unfold m3, astype_uint8 in Hone.
  rewrite map2d_lookup, !paint_lookup in Hone.
  destruct (lookup m0 r c) as [v0 |] eqn:E0; [| discriminate].
  assert (v0 = 0%Z) as -> by (exact (@lookup_Forall _ _ _ _ _ _ Hm0' E0)).
  simpl in Hone.
  destruct (ellipse_region _ _ _ _ _ r c), (circle_region _ _ r c);
    simpl in Hone; try discriminate; auto.
Qed.

Lemma kernel_side_positive (image_size : Z) :
  (0 < kernel_side image_size)%nat.
Proof.
  unfold kernel_side.
  destruct (Nat.eqb_spec (Z.to_nat (erosion_size_of image_size)) 0); lia.
Qed.

Lemma curvilinear_mask_by_kernel_side (g : Geometry) (pre : array2 Z) :
  (0 <= g_image_size g)%Z ->
  sector_mask ellipse_region circle_region (config_of g) = Ok pre ->
  curvilinear_mask ellipse_region circle_region (config_of g)
  = Ok (erode_once (ones (kernel_side (g_image_size g))) pre).
Proof.
  intros Hsize Hpre.
  rewrite (curvilinear_mask_closed_form _ _ g Hsize Hpre), cv2_erode_ones.
  unfold kernel_side. now rewrite erosion_size_floor by exact Hsize.
Qed.

(** X3.  For a valid configuration the mask is contained in the mask before
    erosion, and so in the drawn sector: a pixel of value 1 is a pixel the
    ellipse rasteriser filled and the circle rasteriser did not. *)
Theorem curvilinear_mask_within_sector (g : Geometry) :
  valid g ->
  exists pre mask,
    sector_mask ellipse_region circle_region (config_of g) = Ok pre /\
    curvilinear_mask ellipse_region circle_region (config_of g) = Ok mask /\
    forall r c,
      lookup mask r c = Some 1%Z ->
      lookup pre r c = Some 1%Z /\
      ellipse_region (snd (g_center g), fst (g_center g))
                     (g_radius_end g, g_radius_end g) 0
                     (90 + g_angle_min g) (90 + g_angle_max g) r c = true /\
      circle_region (snd (g_center g), fst (g_center g)) (g_radius_start g)
                    r c = false.
Proof.
  intros (_ & [Hrs Hre] & _ & _ & Hsize).
  destruct (@sector_mask_spec ellipse_region circle_region g)
    as (pre & Hpre & Spre & Bpre); try lia.
  exists pre. eexists. split; [exact Hpre |]. split.
  { apply curvilinear_mask_by_kernel_side; [lia | exact Hpre]. }
  intros r c. rewrite erode_once_lookup.
  destruct (lookup pre r c) as [v0 |] eqn:E0; [| discriminate].
  simpl. intros Hv. injection Hv as Hv.
  destruct (@erode_pixel_binary
              (kernel_offsets (ones (kernel_side (g_image_size g))))
              pre r c v0) as [_ Hle].
  - apply Forall_of_lookup. intros r' c' v' E'.
    exact (proj1 (Bpre _ _ _ E')).
  - apply kernel_offsets_origin. apply kernel_side_positive.
  - exact E0.
  - assert (v0 = 1%Z) as ->
      by (destruct (proj1 (Bpre _ _ _ E0)); lia).
    split; [reflexivity |].
    exact (sector_mask_inside_regions g r c Hpre E0).
Qed.

(** X4.  For a valid configuration the mask is 0 on a margin along each
    side of the image, as wide as the half of the structuring element's
    side, rounded up (26 pixels for a 512-pixel image): there the element,
    anchored at its centre, reaches the zeroed border. *)
Theorem curvilinear_mask_margin (g : Geometry) :
  valid g ->
  exists mask,
    curvilinear_mask ellipse_region circle_region (config_of g) = Ok mask /\
    forall r c v,
      lookup mask r c = Some v ->
      in_margin (g_image_size g) r c -> v = 0%Z.
Proof.
  intros (_ & [Hrs Hre] & _ & _ & Hsize).
  destruct (@sector_mask_spec ellipse_region circle_region g)
    as (pre & Hpre & Spre & Bpre); try lia.
  eexists. split.
  { apply curvilinear_mask_by_kernel_side; [lia | exact Hpre]. }
  pose proof (kernel_side_positive (g_image_size g)) as Hk.
  unfold in_margin, margin.
  set (k := kernel_side (g_image_size g)) in *.
  set (n := Z.to_nat (g_image_size g)) in *.
  intros r c v. rewrite erode_once_lookup.
  destruct (lookup pre r c) as [v0 |] eqn:E0; [| discriminate].
  cbn [option_map]. intros Hv. injection Hv as <-. intros Hmargin.
  destruct (@lookup_bounds _ _ _ _ _ _ _ Spre E0) as [Hr Hc].
  assert (Hbin : Forall (Forall (fun x => x = 0 \/ x = 1)%Z) pre).
  { apply Forall_of_lookup. intros r' c' v' E'.
    exact (proj1 (Bpre _ _ _ E')). }
  assert (Hborder : forall r' c',
             (r' < n)%nat -> (c' < n)%nat -> on_border n r' c' ->
             lookup pre r' c' = Some 0%Z).
  { intros r' c' Hr' Hc' Hb.
    destruct (@lookup_total _ _ _ _ _ _ Spre Hr' Hc') as [v' E'].
    rewrite E'. f_equal. exact (proj2 (Bpre _ _ _ E') Hb). }
  assert (Hhalf : (k / 2 < k)%nat) by (apply Nat.div_lt; lia).
  assert (Hm : (k - k / 2 <= k / 2 + 1)%nat).
  { pose proof (Nat.div_mod_eq k 2) as Hd.
    pose proof (Nat.mod_upper_bound k 2) as Hu. lia. }
  destruct Hmargin as [Htop | [Hbottom | [Hleft | Hright]]].
  - apply (@erode_pixel_zero _ pre r c 0%nat c
             ((Z.of_nat (k / 2 - r) - Z.of_nat (k / 2))%Z,
              (Z.of_nat (k / 2) - Z.of_nat (k / 2))%Z)); cbn [fst snd];
      try lia; try assumption.
    + apply kernel_offsets_member; lia.
    + apply Hborder; try lia. unfold on_border. lia.
  - apply (@erode_pixel_zero _ pre r c (n - 1)%nat c
             ((Z.of_nat (k / 2 + (n - 1 - r)) - Z.of_nat (k / 2))%Z,
              (Z.of_nat (k / 2) - Z.of_nat (k / 2))%Z)); cbn [fst snd];
      try lia; try assumption.
    + apply kernel_offsets_member; lia.
    + apply Hborder; try lia. unfold on_border. lia.
  - apply (@erode_pixel_zero _ pre r c r 0%nat
             ((Z.of_nat (k / 2) - Z.of_nat (k / 2))%Z,
              (Z.of_nat (k / 2 - c) - Z.of_nat (k / 2))%Z)); cbn [fst snd];
      try lia; try assumption.
    + apply kernel_offsets_member; lia.
    + apply Hborder; try lia. unfold on_border. lia.
  - apply (@erode_pixel_zero _ pre r c r (n - 1)%nat
             ((Z.of_nat (k / 2) - Z.of_nat (k / 2))%Z,
              (Z.of_nat (k / 2 + (n - 1 - c)) - Z.of_nat (k / 2))%Z));
      cbn [fst snd]; try lia; try assumption.
    + apply kernel_offsets_member; lia.
    + apply Hborder; try lia. unfold on_border. lia.
Qed.

End MaskFurther.

(** ** The forward converter, pixel by pixel *)

Lemma flatten_chunks {A : Type} (rows cols : nat) (l : list A) :
  length l = (rows * cols)%nat -> flatten (chunks rows cols l) = l.
Proof.
  unfold flatten. revert l. induction rows as [| rows IH]; intros l Hl.
  - simpl in *. now destruct l.
  - simpl. rewrite IH.
    + apply firstn_skipn.
    + rewrite length_skipn. simpl in Hl. lia.
Qed.

Lemma nth_error_zip_with {A B C : Type} (f : A -> B -> C) (l : list A)
  (m : list B) (k : nat) (a : A) (b : B) :
  nth_error l k = Some a -> nth_error m k = Some b ->
  nth_error (zip_with f l m) k = Some (f a b).
Proof.
  revert m k. induction l as [| a' l IH]; intros [| b' m] [| k] Ha Hb;
    simpl in *; try discriminate.
  - congruence.
  - now apply IH.
Qed.

Lemma reshape_ok {A : Type} (l : list A) (rows cols : Z) (a : array2 A) :
  reshape l rows cols = Ok a ->
  (0 <= rows)%Z /\ (0 <= cols)%Z /\
  Z.of_nat (length l) = (rows * cols)%Z /\
  a = chunks (Z.to_nat rows) (Z.to_nat cols) l.
Proof.
  unfold reshape.
  destruct (Z.ltb_spec rows 0); [discriminate |].
  destruct (Z.ltb_spec cols 0); [discriminate |]. simpl.
  destruct (Z.eqb_spec (rows * cols) (Z.of_nat (length l))); [| discriminate].
  intros Ha. injection Ha as <-. repeat split; lia.
Qed.

Lemma einsum_rows_same_length (a w : list (row3 R)) :
  length a = length w -> einsum_rows a w = Ok (zip_with dot3 a w).
Proof. intros H. unfold einsum_rows. now rewrite H, Nat.eqb_refl. Qed.

(** Each entry of the converted image is the dot product of the three
    values its vertex row names with its weight row. *)
Lemma scan_convert_entry (linear_data : array2 R) (cfg : Config)
  (vertices : list (row3 Z)) (weights : list (row3 R)) (image : array2 R)
  (k : nat) (wk : row3 R) :
  scan_convert linear_data cfg vertices weights = Ok image ->
  length vertices = length weights ->
  nth_error weights k = Some wk ->
  exists vk a,
    nth_error vertices k = Some vk /\
    take_row (flatten linear_data) vk = Ok a /\
    nth_error (flatten image) k = Some (dot3 a wk).
Proof.
  unfold scan_convert. intros H Hlen Hwk.
  bind_inv H taken Htaken. bind_inv H zi Hzi. bind_inv H size Hsize.
  pose proof (mapM_length _ _ Htaken) as Ltaken.
  rewrite einsum_rows_same_length in Hzi by congruence.
  injection Hzi as <-.
  apply reshape_ok in H. destruct H as (H0 & _ & Hsq & ->).
  rewrite flatten_chunks by lia.
  destruct (nth_error vertices k) as [vk |] eqn:Evk.
  2:{ apply nth_error_None in Evk.
      assert (k < length weights)%nat by (apply nth_error_Some; congruence).
      lia. }
  apply mapM_Forall2 in Htaken.
  destruct (Forall2_nth_error_left _ Htaken Evk) as (a & Ea & Ha).
  exists vk, a. split; [reflexivity |]. split; [exact Ha |].
  now apply nth_error_zip_with.
Qed.

Lemma take_row_total (z : list R) (v : row3 Z) :
  row_ok (length z) v -> succeeds (take_row z v).
Proof.
  destruct v as [[v0 v1] v2]. unfold row_ok, index_ok. simpl.
  intros (H0 & H1 & H2). unfold take_row.
  destruct (@np_index_total _ z v0 H0) as [a0 [E0 _]].
  destruct (@np_index_total _ z v1 H1) as [a1 [E1 _]].
  destruct (@np_index_total _ z v2 H2) as [a2 [E2 _]].
  rewrite E0, E1, E2. simpl. eexists. reflexivity.
Qed.

(** X6.  With as many vertex rows as weight rows and every vertex index
    inside the flattened data, the converter has three outcomes, decided by
    the configuration alone: KeyError when curvilinear_image_size is absent,
    ValueError when its square is not the number of rows (or it is
    negative), and otherwise an image of that side. *)
Theorem scan_convert_outcomes (linear_data : array2 R) (cfg : Config)
  (vertices : list (row3 Z)) (weights : list (row3 R)) :
  Forall (row_ok (length (flatten linear_data))) vertices ->
  length vertices = length weights ->
  (curvilinear_image_size cfg = None ->
   scan_convert linear_data cfg vertices weights
   = Raise (KeyError "curvilinear_image_size")) /\
  (forall size,
      curvilinear_image_size cfg = Some size ->
      (size < 0)%Z \/ Z.of_nat (length weights) <> (size * size)%Z ->
      scan_convert linear_data cfg vertices weights = Raise ValueError) /\
  (forall size,
      curvilinear_image_size cfg = Some size ->
      (0 <= size)%Z -> Z.of_nat (length weights) = (size * size)%Z ->
      exists image,
        scan_convert linear_data cfg vertices weights = Ok image /\
        has_shape image (Z.to_nat size) (Z.to_nat size)).
Proof.
  intros Hok Hlen.
  assert (Htaken : succeeds (mapM (take_row (flatten linear_data)) vertices)).
  { apply mapM_total. eapply Forall_impl; [| exact Hok].
    intros v Hv. now apply take_row_total. }
  destruct Htaken as [taken Htaken].
  pose proof (mapM_length _ _ Htaken) as Ltaken.
  assert (Hrun : scan_convert linear_data cfg vertices weights
                 = bind (getitem "curvilinear_image_size"
                                 (curvilinear_image_size cfg))
                        (fun size => reshape (zip_with dot3 taken weights)
                                             size size)).
  { unfold scan_convert. rewrite Htaken. cbn [bind].
    rewrite einsum_rows_same_length by congruence. reflexivity. }
  assert (Lzi : length (zip_with dot3 taken weights) = length weights)
    by (rewrite zip_with_length; congruence).
  repeat split.
  - intros Hnone. rewrite Hrun, Hnone. reflexivity.
  - intros size Hsize Hbad. rewrite Hrun, Hsize. cbn [getitem bind].
    unfold reshape. rewrite Lzi.
    destruct (Z.ltb_spec size 0); [reflexivity |]. simpl.
    destruct (Z.eqb_spec (size * size) (Z.of_nat (length weights)));
      [lia | reflexivity].
  - intros size Hsize Hpos Hsq. rewrite Hrun, Hsize. cbn [getitem bind].
    unfold reshape. rewrite Lzi.
    destruct (Z.ltb_spec size 0); [lia |]. simpl.
    destruct (Z.eqb_spec (size * size) (Z.of_nat (length weights)));
      [| lia].
    eexists. split; [reflexivity |]. apply chunks_shape. lia.
Qed.

Lemma scan_convert_outcomes_witness :
  Forall (row_ok (length (flatten sevens_1x3))) [(0, 1, 2)%Z] /\
  length [(0, 1, 2)%Z] = length [(1, 0, 0)%R] /\
  scan_convert sevens_1x3 (config_of small_fan) [(0, 1, 2)%Z] [(1, 0, 0)%R]
  = Raise ValueError.
Proof.
  assert (Hok : Forall (row_ok (length (flatten sevens_1x3))) [(0, 1, 2)%Z]).
  { repeat constructor; unfold index_ok; simpl; lia. }
  split; [exact Hok |]. split; [reflexivity |].
  apply (proj1 (proj2 (@scan_convert_outcomes sevens_1x3
                         (config_of small_fan) [(0, 1, 2)%Z] [(1, 0, 0)%R]
                         Hok eq_refl)) 4%Z eq_refl).
  right. simpl. lia.
Defined.

(** ** Pixels outside the convex hull *)

Lemma np_index_last {A : Type} (l : list A) (v : A) :
  np_index l (-1) = Ok v -> nth_error l (length l - 1) = Some v.
Proof.
  unfold np_index. change (-1 <? 0)%Z with true. cbv iota.
  destruct ((0 <=? -1 + Z.of_nat (length l))%Z
            && (-1 + Z.of_nat (length l) <? Z.of_nat (length l))%Z)%bool
    eqn:E; [| discriminate].
  apply andb_prop in E. destruct E as [E _]. apply Z.leb_le in E.
  replace (Z.to_nat (-1 + Z.of_nat (length l))) with (length l - 1)%nat
    by lia.
  destruct (nth_error l (length l - 1)); congruence.
Qed.

Lemma nth_error_split {A B : Type} (l : list (A * B)) (i : nat)
  (a : A) (b : B) :
  nth_error (map fst l) i = Some a -> nth_error (map snd l) i = Some b ->
  nth_error l i = Some (a, b).
Proof.
  rewrite !nth_error_map. destruct (nth_error l i) as [[a' b'] |]; simpl;
    congruence.
Qed.

Section OutsideTheHull.

Variable Delaunay : list vec2 -> result Triangulation.

(** X7.  For a pixel that point location reports outside every triangle
    (answer -1), the weight builder takes the last triangle of the
    triangulation: the pixel's vertex row is the last row of [simplices] and
    its weights are the barycentric coordinates of the pixel in that last
    triangle's transform. *)
Theorem scan_interpolation_weights_outside_hull (cfg : Config)
  (tri : Triangulation) (size : Z)
  (vertices : list (row3 Z)) (weights : list (row3 R))
  (k : nat) (pixel : vec2) :
  (forall x_cart y_cart,
      scan_conversion_inverse cfg = Ok (x_cart, y_cart) ->
      Delaunay (combine (flatten x_cart) (flatten y_cart)) = Ok tri) ->
  curvilinear_image_size cfg = Some size ->
  scan_interpolation_weights Delaunay cfg = Ok (vertices, weights) ->
  nth_error (mgrid_points size) k = Some pixel ->
  find_simplex tri pixel = (-1)%Z ->
  exists s T,
    nth_error (simplices tri) (length (simplices tri) - 1) = Some s /\
    nth_error (transform tri) (length (transform tri) - 1) = Some T /\
    nth_error vertices k = Some s /\
    nth_error weights k
    = Some (weight_row (matvec (fst T) (vsub pixel (snd T)))).
Proof.
  intros HD Hsize H Hpixel Hout. unfold scan_interpolation_weights in H.
  rewrite Hsize in H. cbn [getitem bind] in H.
  bind_inv H grid Hgrid. destruct grid as [x y].
  rewrite (HD _ _ Hgrid) in H. cbn [bind] in H.
  bind_inv H vs Hvs. bind_inv H X HX. bind_inv H offsets Hoff.
  injection H as <- <-.
  assert (Hfound : nth_error (map (find_simplex tri) (mgrid_points size)) k
                   = Some (-1)%Z)
    by (rewrite nth_error_map, Hpixel; simpl; now rewrite Hout).
  apply mapM_Forall2 in Hvs, HX, Hoff.
  destruct (Forall2_nth_error_left _ Hvs Hfound) as (s & Es & Hs).
  destruct (Forall2_nth_error_left _ HX Hfound) as (Xk & EX & HXk).
  destruct (Forall2_nth_error_left _ Hoff Hfound) as (ok & Eo & Hok).
  apply np_index_last in Hs, HXk, Hok.
  rewrite length_map in HXk, Hok.
  exists s, (Xk, ok). split; [exact Hs |]. split.
  { now apply nth_error_split. }
  split; [exact Es |].
  rewrite nth_error_map.
  rewrite (nth_error_zip_with matvec _ _ _ EX
             (nth_error_zip_with vsub _ _ _ Hpixel Eo)).
  reflexivity.
Qed.

End OutsideTheHull.

Lemma scan_interpolation_weights_outside_hull_witness :
  curvilinear_image_size (config_of small_fan) = Some 4%Z /\
  nth_error (mgrid_points 4) 0 = Some (INR 0, INR 0) /\
  find_simplex one_triangle (INR 0, INR 0) = (-1)%Z /\
  exists vertices weights,
    scan_interpolation_weights (fixed_Delaunay one_triangle)
                               (config_of small_fan)
    = Ok (vertices, weights) /\
    exists s T,
      nth_error (simplices one_triangle)
                (length (simplices one_triangle) - 1) = Some s /\
      nth_error (transform one_triangle)
                (length (transform one_triangle) - 1) = Some T /\
      nth_error vertices 0 = Some s /\
      nth_error weights 0
      = Some (weight_row (matvec (fst T) (vsub (INR 0, INR 0) (snd T)))).
Proof.
  split; [reflexivity |]. split; [reflexivity |]. split; [reflexivity |].
  destruct (@scan_interpolation_weights_total
              (fixed_Delaunay one_triangle) small_fan one_triangle 3
              ltac:(simpl; lia) ltac:(simpl; lia)
              (fixed_Delaunay_answers small_fan one_triangle)
              one_triangle_well_formed)
    as (vertices & weights & Hrun & _).
  exists vertices, weights. split; [exact Hrun |].
  exact (@scan_interpolation_weights_outside_hull
           (fixed_Delaunay one_triangle) (config_of small_fan) one_triangle
           4%Z vertices weights 0%nat (INR 0, INR 0)
           (fixed_Delaunay_answers small_fan one_triangle)
           eq_refl Hrun eq_refl eq_refl).
Defined.

(** ** Further sample runs *)

Lemma curvilinear_mask_within_sector_witness :
  valid scenario_a /\
  exists pre mask,
    sector_mask disc_ellipse in_disc (config_of scenario_a) = Ok pre /\
    curvilinear_mask disc_ellipse in_disc (config_of scenario_a) = Ok mask /\
    forall r c,
      lookup mask r c = Some 1%Z ->
      lookup pre r c = Some 1%Z /\
      disc_ellipse (256, 256)%Z (200, 200)%Z 0 (90 + -30) (90 + 30) r c
      = true /\
      in_disc (256, 256)%Z 50 r c = false.
Proof.
  split; [exact valid_scenario_a |].
  exact (curvilinear_mask_within_sector disc_ellipse in_disc
           valid_scenario_a).
Defined.

Lemma curvilinear_mask_margin_witness :
  valid scenario_a /\
  exists mask,
    curvilinear_mask disc_ellipse in_disc (config_of scenario_a) = Ok mask /\
    forall r c v,
      lookup mask r c = Some v -> in_margin 512 r c -> v = 0%Z.
Proof.
  split; [exact valid_scenario_a |].
  exact (curvilinear_mask_margin disc_ellipse in_disc valid_scenario_a).
Defined.

(** The margin of a 512-pixel image is 26 pixels wide. *)
Lemma margin_512 : margin 512 = 26%nat.
Proof. vm_compute. reflexivity. Qed.

(** ** The model input *)

Lemma interpolate_nearest_shape (plane out : array2 R) (size : Z) :
  interpolate_nearest plane size = Ok out ->
  has_shape out (Z.to_nat size) (Z.to_nat size).
Proof.
  unfold interpolate_nearest.
  destruct (_ || _ || _)%bool; [discriminate |].
  intros H. injection H as <-. split.
  - now rewrite length_map, length_seq.
  - apply Forall_map. apply Forall_forall. intros i _.
    now rewrite length_map, length_seq.
Qed.

Lemma interpolate_nearest_between (plane out : array2 R) (size : Z)
  (lo hi : R) :
  (lo <= 0 <= hi)%R ->
  interpolate_nearest plane size = Ok out ->
  all_between lo hi plane -> all_between lo hi out.
Proof.
  intros H0. unfold interpolate_nearest.
  destruct (_ || _ || _)%bool; [discriminate |].
  intros H Hp. injection H as <-. unfold all_between.
  apply Forall_map. apply Forall_forall. intros i _.
  apply Forall_map. apply Forall_forall. intros j _.
  apply (@nth_Forall_default _ (fun v => (lo <= v <= hi)%R)); [exact H0 |].
  apply (@nth_Forall_default _ (Forall (fun v => (lo <= v <= hi)%R)));
    [constructor | exact Hp].
Qed.

Lemma three_channels (channel : array2 R) (image_size : Z)
  (tensor : list (array2 R)) :
  mapM (fun ch => interpolate_nearest ch image_size)
       [channel; channel; channel] = Ok tensor ->
  exists out,
    interpolate_nearest channel image_size = Ok out /\
    tensor = [out; out; out].
Proof.
  simpl. destruct (interpolate_nearest channel image_size) as [out | e];
    simpl; [| discriminate].
  intros H. injection H as <-. now exists out.
Qed.

(** X9.  Whenever preprocessing returns, with or without a scan conversion
    configuration, the model input has three identical channels of shape
    (image_size, image_size). *)
Theorem preprocess_input_shape (image : list (array2 R)) (image_size : Z)
  (scanconversion_config : option Config) (x_cart y_cart : option (array2 R))
  (tensor : list (array2 R)) :
  preprocess_input image image_size scanconversion_config x_cart y_cart
  = Ok tensor ->
  exists channel,
    tensor = [channel; channel; channel] /\
    has_shape channel (Z.to_nat image_size) (Z.to_nat image_size).
Proof.
  unfold preprocess_input. intros H.
  bind_inv H image' Himage. bind_inv H plane Hplane.
  apply three_channels in H. destruct H as (out & Hout & ->).
  exists out. split; [reflexivity |].
  exact (interpolate_nearest_shape _ _ Hout).
Qed.

Lemma preprocess_input_shape_witness :
  exists tensor,
    preprocess_input [[[255%R]]] 2 None None None = Ok tensor /\
    exists channel,
      tensor = [channel; channel; channel] /\ has_shape channel 2 2.
Proof.
  eexists. split; [reflexivity |].
  exact (@preprocess_input_shape [[[255%R]]] 2 None None None _ eq_refl).
Defined.

(** X10.  A frame with pixel values between 0 and 255 gives a model input
    with values between 0 and 1, with or without a scan conversion
    configuration. *)
Theorem preprocess_input_normalised (plane : array2 R)
  (rest : list (array2 R)) (image_size : Z)
  (scanconversion_config : option Config) (x_cart y_cart : option (array2 R))
  (tensor : list (array2 R)) :
  all_between 0 255 plane ->
  preprocess_input (plane :: rest) image_size scanconversion_config
                   x_cart y_cart = Ok tensor ->
  Forall (all_between 0 1) tensor.
Proof.
  intros Hplane H. destruct scanconversion_config as [cfg |].
  - pose proof (preprocess_input_zero _ _ _ _ _ H) as Hz.
    eapply Forall_impl; [| exact Hz]. intros ch Hch.
    unfold all_between. eapply Forall_impl; [| exact Hch].
    intros row Hrow. eapply Forall_impl; [| exact Hrow].
    intros v ->. lra.
  - unfold preprocess_input in H. cbn [bind] in H.
    rewrite np_index_head in H. cbn [bind] in H.
    apply three_channels in H. destruct H as (out & Hout & ->).
    assert (Hch : all_between 0 1 (map2d (fun v => (v / 255)%R) plane)).
    { unfold all_between, map2d. apply Forall_map.
      eapply Forall_impl; [| exact Hplane]. intros row Hrow.
      apply Forall_map. eapply Forall_impl; [| exact Hrow].
      intros v [Hv0 Hv1]. simpl. lra. }
    assert (Hout' : all_between 0 1 out).
    { apply (@interpolate_nearest_between
               (map2d (fun v => (v / 255)%R) plane) out image_size 0 1);
        [lra | exact Hout | exact Hch]. }
    repeat constructor; exact Hout'.
Qed.

Lemma preprocess_input_normalised_witness :
  all_between 0 255 [[255%R]] /\
  exists tensor,
    preprocess_input [[[255%R]]] 2 None None None = Ok tensor /\
    Forall (all_between 0 1) tensor.
Proof.
  assert (Hplane : all_between 0 255 [[255%R]])
    by (repeat constructor; lra).
  split; [exact Hplane |].
  eexists. split; [reflexivity |].
  exact (@preprocess_input_normalised [[255%R]] [] 2 None None None _
           Hplane eq_refl).
Defined.

Lemma nearest_index_same (n i : nat) :
  (i < n)%nat -> nearest_index n n i = i.
Proof.
  intros Hi. unfold nearest_index.
  rewrite Nat.div_mul by lia. lia.
Qed.

Lemma map_nth_seq {A : Type} (l : list A) (d : A) :
  map (fun i => nth i l d) (seq 0 (length l)) = l.
Proof.
  apply nth_ext with (d := d) (d' := d).
  - now rewrite length_map, length_seq.
  - intros i Hi. rewrite length_map, length_seq in Hi.
    rewrite (nth_indep _ d (nth 0 l d)) by (now rewrite length_map, length_seq).
    rewrite (map_nth (fun i => nth i l d)), seq_nth by exact Hi.
    reflexivity.
Qed.

Lemma interpolate_nearest_same_size (plane : array2 R) (n : nat) :
  (0 < n)%nat -> has_shape plane n n ->
  interpolate_nearest plane (Z.of_nat n) = Ok plane.
Proof.
  intros Hn Hshape. pose proof Hshape as [Hrows Hcols].
  unfold interpolate_nearest.
  rewrite (hd_length Hshape Hn), Hrows.
  destruct (Z.leb_spec (Z.of_nat n) 0); [lia |].
  destruct (Nat.eqb_spec n 0); [lia |].
  change (false || false || false)%bool with false. cbv iota.
  rewrite Nat2Z.id. apply f_equal.
  transitivity (map (fun i => nth i plane []) (seq 0 n)).
  - apply map_ext_in. intros i Hi. apply in_seq in Hi.
    rewrite nearest_index_same by lia.
    assert (Hrow : length (nth i plane []) = n).
    { rewrite Forall_forall in Hcols. apply Hcols. apply nth_In. lia. }
    set (row := nth i plane []) in *.
    transitivity (map (fun j => nth j row 0%R) (seq 0 n)).
    + apply map_ext_in. intros j Hj. apply in_seq in Hj.
      rewrite nearest_index_same by lia. reflexivity.
    + rewrite <- Hrow. apply map_nth_seq.
  - rewrite <- Hrows. apply map_nth_seq.
Qed.

(** X11.  Without a scan conversion configuration, a frame whose side
    already is image_size reaches the model unchanged but for the division
    by 255: each of the three channels is the frame divided by 255. *)
Theorem preprocess_input_without_config (plane : array2 R)
  (rest : list (array2 R)) (n : nat) (x_cart y_cart : option (array2 R)) :
  (0 < n)%nat -> has_shape plane n n ->
  preprocess_input (plane :: rest) (Z.of_nat n) None x_cart y_cart
  = Ok [map2d (fun v => (v / 255)%R) plane;
        map2d (fun v => (v / 255)%R) plane;
        map2d (fun v => (v / 255)%R) plane].
Proof.
  intros Hn Hshape. unfold preprocess_input. cbn [bind].
  rewrite np_index_head. cbn [bind mapM].
  assert (Hch : has_shape (map2d (fun v => (v / 255)%R) plane) n n).
  { apply has_shape_iff. rewrite map2d_shape. now apply has_shape_iff. }
  rewrite (interpolate_nearest_same_size Hn Hch). reflexivity.
Qed.

Lemma preprocess_input_without_config_witness :
  (0 < 1)%nat /\ has_shape [[255%R]] 1 1 /\
  preprocess_input [[[255%R]]] (Z.of_nat 1) None None None
  = Ok [map2d (fun v => (v / 255)%R) [[255%R]];
        map2d (fun v => (v / 255)%R) [[255%R]];
        map2d (fun v => (v / 255)%R) [[255%R]]].
Proof.
  assert (Hshape : has_shape [[255%R]] 1 1)
    by (split; [reflexivity | repeat constructor]).
  split; [lia |]. split; [exact Hshape |].
  exact (@preprocess_input_without_config [[255%R]] [] 1 None None
           ltac:(lia) Hshape).
Defined.

(** ** The frame loop *)

Section FrameLoop.

Variable Delaunay : list vec2 -> result Triangulation.
Variable ellipse_region :
  Z * Z -> Z * Z -> R -> R -> R -> nat -> nat -> bool.
Variable circle_region : Z * Z -> Z -> nat -> nat -> bool.
Variable infer_and_send : Loaded -> list (array2 R) -> result unit.

Lemma frame_loop_zero_inputs (args : Args) (st : Loaded) (cfg : Config)
  (messages : list Message) (done : list (list (array2 R))) :
  loaded_config st = Some cfg ->
  Forall (Forall all_zero) done ->
  Forall (Forall all_zero)
         (model_inputs (frame_loop infer_and_send args st messages done)).
Proof.
  intros Hcfg. revert done.
  induction messages as [| m ms IH]; intros done Hdone; cbn [frame_loop].
  - cbn [model_inputs]. apply Forall_rev. exact Hdone.
  - destruct (String.eqb _ _); [| now apply IH].
    rewrite Hcfg.
    destruct (preprocess_input _ _ _ _ _) as [image | e] eqn:E.
    + pose proof (preprocess_input_zero _ _ _ _ _ E) as Hz.
      destruct (infer_and_send st image) as [u | e'].
      * apply IH. now constructor.
      * cbn [model_inputs]. apply Forall_rev. now constructor.
    + cbn [model_inputs]. apply Forall_rev. exact Hdone.
Qed.

(** X12.  With a scan conversion configuration, every input the client
    hands to the model is zero in all channels, whatever frames arrive:
    the preprocessing resamples a zero array in place of each frame. *)
Theorem run_client_zero_inputs (args : Args) (cfg : Config)
  (messages : list Message) :
  args_scanconversion_config args = Some cfg ->
  Forall (Forall all_zero)
         (model_inputs
            (run_client Delaunay ellipse_region circle_region infer_and_send
                        args messages)).
Proof.
  intros Hcfg. unfold run_client.
  destruct (load_scan_conversion _ _ _ args) as [st | e] eqn:Hload;
    [| constructor].
  apply frame_loop_zero_inputs with (cfg := cfg); [| constructor].
  unfold load_scan_conversion in Hload. rewrite Hcfg in Hload.
  bind_inv Hload loaded Hloaded.
  bind_inv Hloaded grid Hgrid. destruct grid as [x y].
  injection Hloaded as <-.
  bind_inv Hload built Hbuilt. destruct built as [vertices weights].
  bind_inv Hload mask Hmask. injection Hload as <-. reflexivity.
Qed.

End FrameLoop.

Lemma run_client_zero_inputs_witness :
  args_scanconversion_config (client_args small_fan)
  = Some (config_of small_fan) /\
  Forall (Forall all_zero)
         (model_inputs
            (run_client (fixed_Delaunay one_triangle) disc_ellipse in_disc
                        always_sends (client_args small_fan)
                        [bright_frame])).
Proof.
  split; [reflexivity |].
  exact (@run_client_zero_inputs (fixed_Delaunay one_triangle) disc_ellipse
           in_disc always_sends (client_args small_fan)
           (config_of small_fan) [bright_frame] eq_refl).
Defined.


(** * Properties of the dataset index script *)

(** ** Dicts *)

Lemma dict_get_set (k k' : string) (v : json) (d : dict) :
  dict_get k (dict_set k' v d)
  = if String.eqb k' k then Some v else dict_get k d.
Proof.
  induction d as [| [k0 v0] d IH]; simpl.
  - reflexivity.
  - destruct (String.eqb_spec k0 k') as [-> | Hne]; simpl.
    + destruct (String.eqb k' k); reflexivity.
    + rewrite IH. destruct (String.eqb_spec k0 k) as [-> | Hne'];
        [| reflexivity].
      destruct (String.eqb_spec k' k); [congruence | reflexivity].
Qed.

Lemma dict_fill_absent (k : string) (pairs : list (string * json))
  (d : dict) :
  ~ In k (map fst pairs) ->
  dict_get k (fold_left (fun d kv => dict_set (fst kv) (snd kv) d) pairs d)
  = dict_get k d.
Proof.
  revert d. induction pairs as [| [k0 v0] pairs IH]; intros d Hk; simpl.
  - reflexivity.
  - rewrite IH by (intros H; apply Hk; now right).
    rewrite dict_get_set. simpl.
    destruct (String.eqb_spec k0 k) as [-> | _]; [| reflexivity].
    exfalso. apply Hk. now left.
Qed.

Lemma dict_fill_present (k : string) (v : json)
  (pairs : list (string * json)) (d : dict) :
  NoDup (map fst pairs) -> In (k, v) pairs ->
  dict_get k (fold_left (fun d kv => dict_set (fst kv) (snd kv) d) pairs d)
  = Some v.
Proof.
  revert d. induction pairs as [| [k0 v0] pairs IH]; intros d Hnd Hin;
    [now destruct Hin |].
  simpl in Hnd. inversion Hnd as [| ? ? Hk0 Hnd']; subst.
  destruct Hin as [Heq | Hin]; simpl.
  - injection Heq as -> ->.
    rewrite dict_fill_absent by exact Hk0.
    rewrite dict_get_set. now rewrite String.eqb_refl.
  - now apply IH.
Qed.

Lemma dict_fill_source (k : string) (v : json)
  (pairs : list (string * json)) (d : dict) :
  dict_get k (fold_left (fun d kv => dict_set (fst kv) (snd kv) d) pairs d)
  = Some v ->
  In (k, v) pairs \/ dict_get k d = Some v.
Proof.
  revert d. induction pairs as [| [k0 v0] pairs IH]; intros d H; simpl in *.
  - now right.
  - destruct (IH _ H) as [Hin | Hd]; [left; now right |].
    rewrite dict_get_set in Hd.
    destruct (String.eqb_spec k0 k) as [-> | _]; [| now right].
    injection Hd as ->. left. now left.
Qed.

(** ** Zipped lists *)

Lemma in_combine_fst {A B : Type} (l : list A) (m : list B) (a : A) :
  In a (map fst (combine l m)) -> In a l.
Proof.
  intros H. apply in_map_iff in H. destruct H as [[a' b] [<- H]].
  eapply in_combine_l. exact H.
Qed.

Lemma NoDup_combine_fst {A B : Type} (l : list A) (m : list B) :
  NoDup l -> NoDup (map fst (combine l m)).
Proof.
  intros H. revert m. induction H as [| a l Ha _ IH]; intros [| b m];
    simpl; try constructor.
  - intros Hin. apply Ha. eapply in_combine_fst. exact Hin.
  - apply IH.
Qed.

Lemma in_combine_nth {A B : Type} (l : list A) (m : list B) (i : nat)
  (a : A) (b : B) :
  nth_error l i = Some a -> nth_error m i = Some b -> In (a, b) (combine l m).
Proof.
  revert m i. induction l as [| a' l IH]; intros [| b' m] [| i] Ha Hb;
    simpl in *; try discriminate.
  - left. congruence.
  - right. eapply IH; eassumption.
Qed.

Lemma in_combine_index {A B : Type} (l : list A) (m : list B)
  (a : A) (b : B) :
  In (a, b) (combine l m) ->
  exists i, nth_error l i = Some a /\ nth_error m i = Some b.
Proof.
  revert m. induction l as [| a' l IH]; intros [| b' m] H; simpl in *;
    try now destruct H.
  destruct H as [Heq | H].
  - injection Heq as -> ->. now exists 0%nat.
  - destruct (IH _ H) as [i Hi]. now exists (S i).
Qed.

Lemma in_combine_swap {A B : Type} (l : list A) (m : list B)
  (a : A) (b : B) :
  In (a, b) (combine l m) <-> In (b, a) (combine m l).
Proof.
  split; intros H; apply in_combine_index in H; destruct H as [i [H1 H2]];
    eapply in_combine_nth; eassumption.
Qed.

(** ** What the loop gathers *)

Lemma gather_flat_map (args : IndexArgs) (walked : list walk_entry) :
  gather args walked
  = (flat_map (fun e => if selects (img_dir_name args) e then paths_of e
                        else []) walked,
     flat_map (fun e => if selects (gt_dir_name args) e then paths_of e
                        else []) walked).
Proof.
  unfold gather.
  assert (H : forall imgs gts,
             fold_left
               (fun (acc : list string * list string) entry =>
                  let '(imgs, gts) := acc in
                  let imgs := if selects (img_dir_name args) entry
                              then imgs ++ paths_of entry else imgs in
                  let gts := if selects (gt_dir_name args) entry
                             then gts ++ paths_of entry else gts in
                  (imgs, gts))
               walked (imgs, gts)
             = (imgs ++ flat_map (fun e => if selects (img_dir_name args) e
                                           then paths_of e else []) walked,
                gts ++ flat_map (fun e => if selects (gt_dir_name args) e
                                          then paths_of e else []) walked)).
  { induction walked as [| e walked IH]; intros imgs gts; simpl.
    - now rewrite !app_nil_r.
    - rewrite IH.
      destruct (selects (img_dir_name args) e),
               (selects (gt_dir_name args) e);
        now rewrite <- ?app_assoc. }
  apply H.
Qed.

Lemma dict_set_keys (k : string) (v : json) (d : dict) :
  map fst (dict_set k v d)
  = if in_dec string_dec k (map fst d) then map fst d else map fst d ++ [k].
Proof.
  induction d as [| [k0 v0] d IH]; simpl; [reflexivity |].
  destruct (String.eqb_spec k0 k) as [Heq | Hne]; simpl.
  - destruct (string_dec k0 k) as [Hk | Hk]; [| congruence].
    now rewrite Heq.
  - rewrite IH. destruct (string_dec k0 k) as [Heq | Hk]; [congruence |].
    destruct (in_dec string_dec k (map fst d)); reflexivity.
Qed.

Lemma dict_fill_keys (pairs : list (string * json)) (d : dict) :
  NoDup (map fst d ++ map fst pairs) ->
  map fst (fold_left (fun d kv => dict_set (fst kv) (snd kv) d) pairs d)
  = map fst d ++ map fst pairs.
Proof.
  revert d. induction pairs as [| [k0 v0] pairs IH]; intros d Hnd; simpl.
  - now rewrite app_nil_r.
  - assert (Hkeys : map fst (dict_set k0 v0 d) = map fst d ++ [k0]).
    { rewrite dict_set_keys.
      destruct (in_dec string_dec k0 (map fst d)) as [Hin | _];
        [| reflexivity].
      exfalso. simpl in Hnd. apply NoDup_remove_2 in Hnd.
      apply Hnd. apply in_or_app. now left. }
    rewrite IH; rewrite Hkeys, <- app_assoc; [reflexivity | exact Hnd].
Qed.

Lemma combine_fst_firstn {A B : Type} (l : list A) (m : list B) :
  map fst (combine l m) = firstn (length m) l.
Proof.
  revert m. induction l as [| a l IH]; intros [| b m]; simpl;
    try reflexivity.
  now rewrite IH.
Qed.

Section IndexProperties.

Variable walk : string -> list walk_entry.

Lemma main_train (args : IndexArgs) (folder : string)
  (imgs gts : list string) :
  input args = Some folder ->
  type args = "train"%string ->
  gather args (walk folder) = (imgs, gts) ->
  exists path,
    main walk args
    = Written path
        (dict_of (map (fun kv => (fst kv, JArray [snd kv]))
                      (combine imgs gts))).
Proof.
  intros Hin Htype Hgather. unfold main.
  rewrite Hin, Hgather, Htype. simpl. eexists. reflexivity.
Qed.

Lemma main_test (args : IndexArgs) (folder : string)
  (imgs gts : list string) :
  input args = Some folder ->
  type args <> "train"%string ->
  gather args (walk folder) = (imgs, gts) ->
  exists path,
    main walk args
    = Written path
        (dict_of (map (fun kv => (fst kv, JString (snd kv)))
                      (combine gts imgs))).
Proof.
  intros Hin Htype Hgather. unfold main.
  rewrite Hin, Hgather.
  destruct (String.eqb_spec (type args) "train"); [congruence |].
  eexists. reflexivity.
Qed.

Lemma train_keys (imgs gts : list string) :
  map fst (map (fun kv : string * string => (fst kv, JArray [snd kv]))
               (combine imgs gts))
  = map fst (combine imgs gts).
Proof. rewrite map_map. reflexivity. Qed.

(** X13.  In train mode images and labels are paired by position: when the
    gathered image paths are distinct, the i-th image is mapped to the list
    holding the i-th label alone, whatever the two files are called. *)
Theorem main_train_pairs_by_position (args : IndexArgs) (folder : string)
  (imgs gts : list string) (i : nat) (img gt : string) :
  input args = Some folder ->
  type args = "train"%string ->
  gather args (walk folder) = (imgs, gts) ->
  NoDup imgs ->
  nth_error imgs i = Some img -> nth_error gts i = Some gt ->
  exists path data,
    main walk args = Written path data /\
    dict_get img data = Some (JArray [gt]).
Proof.
  intros Hin Htype Hgather Hnd Himg Hgt.
  destruct (main_train args Hin Htype Hgather) as [path Hmain].
  eexists. eexists. split; [exact Hmain |].
  unfold dict_of. apply dict_fill_present.
  - rewrite train_keys. now apply NoDup_combine_fst.
  - apply in_map_iff. exists (img, gt). split; [reflexivity |].
    eapply in_combine_nth; eassumption.
Qed.

(** X14.  In train mode an image without a label at its position is left
    out without a message: when the gathered image paths are distinct, the
    images from position len(gts) on have no entry. *)
Theorem main_train_drops_unpaired (args : IndexArgs) (folder : string)
  (imgs gts : list string) (i : nat) (img : string) :
  input args = Some folder ->
  type args = "train"%string ->
  gather args (walk folder) = (imgs, gts) ->
  NoDup imgs ->
  nth_error imgs i = Some img -> (length gts <= i)%nat ->
  exists path data,
    main walk args = Written path data /\ dict_get img data = None.
Proof.
  intros Hin Htype Hgather Hnd Himg Hi.
  destruct (main_train args Hin Htype Hgather) as [path Hmain].
  eexists. eexists. split; [exact Hmain |].
  unfold dict_of. rewrite dict_fill_absent; [reflexivity |].
  rewrite train_keys. intros Hkey.
  apply in_map_iff in Hkey. destruct Hkey as [[img' gt] [Heq Hpair]].
  simpl in Heq. subst img'.
  apply in_combine_index in Hpair. destruct Hpair as (j & Hj & Hgj).
  assert (j < length gts)%nat by (apply nth_error_Some; congruence).
  assert (Hij : i = j).
  { apply (proj1 (NoDup_nth_error imgs) Hnd).
    - apply nth_error_Some. congruence.
    - congruence. }
  lia.
Qed.

(** X15.  In train mode the file lists the paired images in the order the
    walk produced them: when the gathered image paths are distinct, the
    keys of the dict are the first len(gts) image paths, in order. *)
Theorem main_train_keeps_walk_order (args : IndexArgs) (folder : string)
  (imgs gts : list string) :
  input args = Some folder ->
  type args = "train"%string ->
  gather args (walk folder) = (imgs, gts) ->
  NoDup imgs ->
  exists path data,
    main walk args = Written path data /\
    map fst data = firstn (length gts) imgs.
Proof.
  intros Hin Htype Hgather Hnd.
  destruct (main_train args Hin Htype Hgather) as [path Hmain].
  eexists. eexists. split; [exact Hmain |].
  unfold dict_of. rewrite dict_fill_keys.
  - simpl. rewrite train_keys. apply combine_fst_firstn.
  - simpl. rewrite train_keys. now apply NoDup_combine_fst.
Qed.

(** X16.  The two modes are inverse to each other: over one tree, with
    distinct image paths and distinct label paths, the train dict maps an
    image to the list of a label exactly when the test dict maps that label
    to that image. *)
Theorem main_test_inverts_train (train test : IndexArgs) (folder : string)
  (imgs gts : list string) :
  input train = Some folder -> input test = Some folder ->
  type train = "train"%string -> type test <> "train"%string ->
  gather train (walk folder) = (imgs, gts) ->
  gather test (walk folder) = (imgs, gts) ->
  NoDup imgs -> NoDup gts ->
  exists path data path' data',
    main walk train = Written path data /\
    main walk test = Written path' data' /\
    forall img gt,
      dict_get img data = Some (JArray [gt])
      <-> dict_get gt data' = Some (JString img).
Proof.
  intros Hin Hin' Htype Htype' Hg Hg' Hnd Hnd'.
  destruct (main_train train Hin Htype Hg) as [path Hmain].
  destruct (main_test test Hin' Htype' Hg') as [path' Hmain'].
  do 4 eexists. split; [exact Hmain |]. split; [exact Hmain' |].
  intros img gt. unfold dict_of. split; intros H.
  - apply dict_fill_source in H. destruct H as [H | H]; [| discriminate].
    apply in_map_iff in H. destruct H as [[img' gt'] [Heq Hpair]].
    simpl in Heq. injection Heq as -> ->.
    apply dict_fill_present.
    + rewrite map_map. simpl. now apply NoDup_combine_fst.
    + apply in_map_iff. exists (gt, img). split; [reflexivity |].
      now apply in_combine_swap.
  - apply dict_fill_source in H. destruct H as [H | H]; [| discriminate].
    apply in_map_iff in H. destruct H as [[gt' img'] [Heq Hpair]].
    simpl in Heq. injection Heq as -> ->.
    apply dict_fill_present.
    + rewrite train_keys. now apply NoDup_combine_fst.
    + apply in_map_iff. exists (img, gt). split; [reflexivity |].
      now apply in_combine_swap.
Qed.

End IndexProperties.

(** X17.  The loop gathers a path exactly when it is the join of a walked
    folder and one of its files, the folder has no subfolder, and one
    component of the folder's path is the image folder name as a whole;
    files next to subfolders are never gathered. *)
Theorem gather_collects_leaf_folders (args : IndexArgs)
  (walked : list walk_entry) (path : string) :
  In path (fst (gather args walked))
  <-> exists root files fn,
        In (root, [], files) walked /\
        In (img_dir_name args) (split "/"%char root) /\
        In fn files /\
        path = path_join root fn.
Proof.
  rewrite gather_flat_map. cbn [fst]. rewrite in_flat_map. split.
  - intros ([[root dirs] files] & Hentry & Hpath).
    destruct (selects (img_dir_name args) (root, dirs, files)) eqn:Hsel;
      [| now destruct Hpath].
    unfold selects in Hsel. apply andb_prop in Hsel.
    destruct Hsel as [Hname Hdirs].
    destruct dirs; [| discriminate].
    apply existsb_exists in Hname. destruct Hname as (comp & Hcomp & Heq).
    apply String.eqb_eq in Heq. subst comp.
    unfold paths_of in Hpath. apply in_map_iff in Hpath.
    destruct Hpath as (fn & <- & Hfn).
    now exists root, files, fn.
  - intros (root & files & fn & Hentry & Hname & Hfn & ->).
    exists (root, [], files). split; [exact Hentry |].
    assert (Hsel : selects (img_dir_name args) (root, [], files) = true).
    { unfold selects. apply andb_true_intro. split; [| reflexivity].
      apply existsb_exists. exists (img_dir_name args).
      split; [exact Hname | apply String.eqb_refl]. }
    rewrite Hsel. unfold paths_of. now apply in_map.
Qed.

(** ** Sample trees *)

Lemma two_images_distinct :
  NoDup ["data/imgs/a.png"; "data/imgs/b.png"]%string.
Proof.
  repeat constructor; simpl; intuition discriminate.
Qed.

Lemma two_labels_distinct :
  NoDup ["data/gts/a.png"; "data/gts/b.png"]%string.
Proof.
  repeat constructor; simpl; intuition discriminate.
Qed.

Lemma main_train_pairs_by_position_witness :
  input train_args = Some "data"%string /\
  type train_args = "train"%string /\
  gather train_args (two_folders "data")
  = (["data/imgs/a.png"; "data/imgs/b.png"]%string,
     ["data/gts/a.png"; "data/gts/b.png"]%string) /\
  NoDup ["data/imgs/a.png"; "data/imgs/b.png"]%string /\
  exists path data,
    main two_folders train_args = Written path data /\
    dict_get "data/imgs/b.png" data = Some (JArray ["data/gts/b.png"%string]).
Proof.
  split; [reflexivity |]. split; [reflexivity |]. split; [reflexivity |].
  split; [exact two_images_distinct |].
  exact (@main_train_pairs_by_position two_folders train_args "data"
           ["data/imgs/a.png"; "data/imgs/b.png"]%string
           ["data/gts/a.png"; "data/gts/b.png"]%string
           1 "data/imgs/b.png" "data/gts/b.png"
           eq_refl eq_refl eq_refl two_images_distinct eq_refl eq_refl).
Defined.

Lemma main_train_drops_unpaired_witness :
  gather train_args (unpaired_folders "data")
  = (["data/imgs/a.png"; "data/imgs/b.png"]%string,
     ["data/gts/a.png"]%string) /\
  NoDup ["data/imgs/a.png"; "data/imgs/b.png"]%string /\
  (length ["data/gts/a.png"%string] <= 1)%nat /\
  exists path data,
    main unpaired_folders train_args = Written path data /\
    dict_get "data/imgs/b.png" data = None.
Proof.
  split; [reflexivity |]. split; [exact two_images_distinct |].
  split; [simpl; lia |].
  exact (@main_train_drops_unpaired unpaired_folders train_args "data"
           ["data/imgs/a.png"; "data/imgs/b.png"]%string
           ["data/gts/a.png"]%string 1 "data/imgs/b.png"
           eq_refl eq_refl eq_refl two_images_distinct eq_refl
           ltac:(simpl; lia)).
Defined.

Lemma main_train_keeps_walk_order_witness :
  gather train_args (unpaired_folders "data")
  = (["data/imgs/a.png"; "data/imgs/b.png"]%string,
     ["data/gts/a.png"]%string) /\
  NoDup ["data/imgs/a.png"; "data/imgs/b.png"]%string /\
  exists path data,
    main unpaired_folders train_args = Written path data /\
    map fst data = ["data/imgs/a.png"%string].
Proof.
  split; [reflexivity |]. split; [exact two_images_distinct |].
  exact (@main_train_keeps_walk_order unpaired_folders train_args "data"
           ["data/imgs/a.png"; "data/imgs/b.png"]%string
           ["data/gts/a.png"]%string
           eq_refl eq_refl eq_refl two_images_distinct).
Defined.

Lemma main_test_inverts_train_witness :
  type train_args = "train"%string /\
  type test_args <> "train"%string /\
  gather train_args (two_folders "data")
  = gather test_args (two_folders "data") /\
  NoDup ["data/imgs/a.png"; "data/imgs/b.png"]%string /\
  NoDup ["data/gts/a.png"; "data/gts/b.png"]%string /\
  exists path data path' data',
    main two_folders train_args = Written path data /\
    main two_folders test_args = Written path' data' /\
    forall img gt,
      dict_get img data = Some (JArray [gt])
      <-> dict_get gt data' = Some (JString img).
Proof.
  assert (Htest : type test_args <> "train"%string) by discriminate.
  split; [reflexivity |]. split; [exact Htest |]. split; [reflexivity |].
  split; [exact two_images_distinct |].
  split; [exact two_labels_distinct |].
  exact (@main_test_inverts_train two_folders train_args test_args "data"
           ["data/imgs/a.png"; "data/imgs/b.png"]%string
           ["data/gts/a.png"; "data/gts/b.png"]%string
           eq_refl eq_refl eq_refl Htest eq_refl eq_refl
           two_images_distinct two_labels_distinct).
Defined.


(** * The weights and the converter together *)

Lemma nth_error_flat_map_uniform {A B : Type} (f : A -> list B)
  (l : list A) (n i j : nat) (x : A) :
  (forall a, length (f a) = n) ->
  nth_error l i = Some x -> (j < n)%nat ->
  nth_error (flat_map f l) (i * n + j) = nth_error (f x) j.
Proof.
  intros Hlen. revert i. induction l as [| a l IH]; intros [| i] Hx Hj;
    simpl in *; try discriminate.
  - injection Hx as ->. apply nth_error_app1. now rewrite Hlen.
  - rewrite nth_error_app2 by (rewrite Hlen; lia).
    rewrite Hlen. replace (n + i * n + j - n)%nat with (i * n + j)%nat by lia.
    now apply IH.
Qed.

(** Entry [i * n + j] of the flattened pixel grid is the point (i, j). *)
Lemma mgrid_points_nth (n i j : nat) :
  (i < n)%nat -> (j < n)%nat ->
  nth_error (mgrid_points (Z.of_nat n)) (i * n + j) = Some (INR i, INR j).
Proof.
  intros Hi Hj. unfold mgrid_points. rewrite Nat2Z.id.
  rewrite (@nth_error_flat_map_uniform _ _ _ (seq 0 n) n i j i).
  - rewrite nth_error_map, nth_error_seq.
    destruct (Nat.ltb_spec j n); [reflexivity | lia].
  - intros a. now rewrite length_map, length_seq.
  - rewrite nth_error_seq. destruct (Nat.ltb_spec i n); [reflexivity | lia].
  - exact Hj.
Qed.

Lemma np_index_map {A B : Type} (f : A -> B) (l : list A) (i : Z) (b : B) :
  np_index (map f l) i = Ok b ->
  exists a, np_index l i = Ok a /\ b = f a.
Proof.
  unfold np_index. rewrite length_map, nth_error_map.
  destruct ((0 <=? _)%Z && _)%bool; [| discriminate].
  destruct (nth_error l _) as [a |]; simpl; [| discriminate].
  intros H. injection H as <-. now exists a.
Qed.

Section BuiltAndConverted.

Variable Delaunay : list vec2 -> result Triangulation.


Lemma built_pixel (cfg : Config)
  (tri : Triangulation) (n : nat) (linear_data : array2 R)
  (vertices : list (row3 Z)) (weights : list (row3 R)) (image : array2 R)
  (i j : nat) :
  (forall x_cart y_cart,
      scan_conversion_inverse cfg = Ok (x_cart, y_cart) ->
      Delaunay (combine (flatten x_cart) (flatten y_cart)) = Ok tri) ->
  curvilinear_image_size cfg = Some (Z.of_nat n) ->
  scan_interpolation_weights Delaunay cfg = Ok (vertices, weights) ->
  scan_convert linear_data cfg vertices weights = Ok image ->
  (i < n)%nat -> (j < n)%nat ->
  exists s T a,
    np_index (simplices tri) (find_simplex tri (INR i, INR j)) = Ok s /\
    np_index (transform tri) (find_simplex tri (INR i, INR j)) = Ok T /\
    take_row (flatten linear_data) s = Ok a /\
    lookup image i j
    = Some (dot3 a (weight_row (matvec (fst T)
                                       (vsub (INR i, INR j) (snd T))))).
Proof.
  intros HD Hsize Hbuilt Hrun Hi Hj.
  pose proof Hbuilt as H. unfold scan_interpolation_weights in H.
  rewrite Hsize in H. cbn [getitem bind] in H.
  bind_inv H grid Hgrid. destruct grid as [x y].
  rewrite (HD _ _ Hgrid) in H. cbn [bind] in H.
  bind_inv H vs Hvs. bind_inv H X HX. bind_inv H offsets Hoff.
  injection H as Hv Hw.
  pose proof (mgrid_points_nth Hi Hj) as Hpixel.
  set (k := (i * n + j)%nat) in *.
  assert (Hfound : nth_error (map (find_simplex tri)
                                  (mgrid_points (Z.of_nat n))) k
                   = Some (find_simplex tri (INR i, INR j)))
    by (now rewrite nth_error_map, Hpixel).
  pose proof (mapM_length _ _ Hvs) as Lvs.
  pose proof (mapM_length _ _ HX) as LX.
  pose proof (mapM_length _ _ Hoff) as Loff.
  apply mapM_Forall2 in Hvs, HX, Hoff.
  destruct (Forall2_nth_error_left _ Hvs Hfound) as (s & Es & Hs).
  destruct (Forall2_nth_error_left _ HX Hfound) as (Xk & EX & HXk).
  destruct (Forall2_nth_error_left _ Hoff Hfound) as (ok & Eo & Hok).
  apply np_index_map in HXk, Hok.
  destruct HXk as (T & HT & ->). destruct Hok as (T' & HT' & ->).
  assert (T' = T) as -> by congruence.
  assert (Hwk : nth_error weights k
                = Some (weight_row (matvec (fst T)
                                           (vsub (INR i, INR j) (snd T))))).
  { rewrite <- Hw. rewrite nth_error_map.
    rewrite (nth_error_zip_with matvec _ _ _ EX
               (nth_error_zip_with vsub _ _ _ Hpixel Eo)).
    reflexivity. }
  assert (Hlen : length vertices = length weights).
  { rewrite length_map in Lvs, LX, Loff.
    assert (LY : length (zip_with vsub (mgrid_points (Z.of_nat n)) offsets)
                 = length (mgrid_points (Z.of_nat n)))
      by (apply zip_with_length; congruence).
    rewrite <- Hv, <- Hw, length_map.
    rewrite zip_with_length; congruence. }
  destruct (scan_convert_entry _ _ _ _ _ Hrun Hlen Hwk)
    as (vk & a & Evk & Ha & Hentry).
  assert (vk = s) as -> by (rewrite <- Hv in Evk; congruence).
  exists s, T, a. repeat split; try assumption.
  unfold scan_convert in Hrun.
  bind_inv Hrun taken Htaken. bind_inv Hrun zi Hzi.
  rewrite Hsize in Hrun. cbn [getitem bind] in Hrun.
  apply reshape_ok in Hrun. destruct Hrun as (_ & _ & Hsq & Himage).
  rewrite Himage in Hentry |- *. rewrite Nat2Z.id in *.
  rewrite flatten_chunks in Hentry by nia.
  now rewrite chunks_lookup.
Qed.

(** X18.  The builder and the converter agree on the pixel order: with the
    weights built for a configuration, pixel (i, j) of the converted image
    is the interpolation at the query point (i, j), that is the dot product
    of the three data values of the triangle point location gives for
    (i, j) with the barycentric weights of (i, j) in that triangle. *)
Theorem scan_convert_pixel_of_query_point (cfg : Config)
  (tri : Triangulation) (n : nat) (linear_data : array2 R)
  (vertices : list (row3 Z)) (weights : list (row3 R)) (image : array2 R)
  (i j : nat) :
  (forall x_cart y_cart,
      scan_conversion_inverse cfg = Ok (x_cart, y_cart) ->
      Delaunay (combine (flatten x_cart) (flatten y_cart)) = Ok tri) ->
  curvilinear_image_size cfg = Some (Z.of_nat n) ->
  scan_interpolation_weights Delaunay cfg = Ok (vertices, weights) ->
  scan_convert linear_data cfg vertices weights = Ok image ->
  (i < n)%nat -> (j < n)%nat ->
  exists s T a,
    np_index (simplices tri) (find_simplex tri (INR i, INR j)) = Ok s /\
    np_index (transform tri) (find_simplex tri (INR i, INR j)) = Ok T /\
    take_row (flatten linear_data) s = Ok a /\
    lookup image i j
    = Some (dot3 a (weight_row (matvec (fst T)
                                       (vsub (INR i, INR j) (snd T))))).
Proof.
  intros HD Hsize Hbuilt Hrun Hi Hj.
  exact (built_pixel _ _ HD Hsize Hbuilt Hrun Hi Hj).
Qed.

End BuiltAndConverted.

Lemma one_pixel_built :
  scan_interpolation_weights (fixed_Delaunay one_triangle)
                             (config_of one_pixel)
  = Ok ([(0, 1, 2)%Z],
        [weight_row (matvec ((1, 0), (0, 1))%R
                            (vsub (INR 0, INR 0) (0, 0)%R))]).
Proof. reflexivity. Qed.

Lemma one_pixel_converted :
  scan_convert sevens_1x3 (config_of one_pixel) [(0, 1, 2)%Z]
    [weight_row (matvec ((1, 0), (0, 1))%R (vsub (INR 0, INR 0) (0, 0)%R))]
  = Ok [[dot3 (7, 7, 7)%R
              (weight_row (matvec ((1, 0), (0, 1))%R
                                  (vsub (INR 0, INR 0) (0, 0)%R)))]].
Proof. reflexivity. Qed.

Lemma scan_convert_pixel_of_query_point_witness :
  curvilinear_image_size (config_of one_pixel) = Some (Z.of_nat 1) /\
  exists vertices weights image,
    scan_interpolation_weights (fixed_Delaunay one_triangle)
                               (config_of one_pixel)
    = Ok (vertices, weights) /\
    scan_convert sevens_1x3 (config_of one_pixel) vertices weights
    = Ok image /\
    exists s T a,
      np_index (simplices one_triangle)
               (find_simplex one_triangle (INR 0, INR 0)) = Ok s /\
      np_index (transform one_triangle)
               (find_simplex one_triangle (INR 0, INR 0)) = Ok T /\
      take_row (flatten sevens_1x3) s = Ok a /\
      lookup image 0 0
      = Some (dot3 a (weight_row (matvec (fst T)
                                         (vsub (INR 0, INR 0) (snd T))))).
Proof.
  split; [reflexivity |].
  eexists _, _, _.
  split; [exact one_pixel_built |]. split; [exact one_pixel_converted |].
  exact (@scan_convert_pixel_of_query_point
           (fixed_Delaunay one_triangle) (config_of one_pixel) one_triangle
           1%nat sevens_1x3 _ _ _ 0%nat 0%nat
           (fixed_Delaunay_answers one_pixel one_triangle)
           eq_refl one_pixel_built one_pixel_converted
           (Nat.lt_0_succ 0) (Nat.lt_0_succ 0)).
Defined.

(** * Constant data is not reproduced exactly *)





